(** * aihwkit example 16: a GAN on MNIST with analog linear layers

    A shallow embedding of [examples/16_mnist_gan.py].  The script is a
    sequence of calls into external libraries (torch, torchvision,
    matplotlib, aihwkit), so it is embedded as a program over a call
    alphabet: every library call is an event, tensors are symbolic terms
    recording the operations that produced them, and a run is the trace of
    calls together with the value returned or the exception raised. *)

From Stdlib Require Import ZArith List String Ascii Bool Lia.
From Stdlib Require Import Permutation Sorted.
Import ListNotations.
Local Open Scope Z_scope.

Set Implicit Arguments.
Set Warnings "-register-all".

(** ** Python strings and the builtins the script uses on them *)

Module Py.

(** A Python [str] restricted to one-byte characters. *)
Definition str := list ascii.

Definition lit (s : string) : str := list_ascii_of_string s.

Fixpoint startswith (p s : str) : bool :=
  match p, s with
  | [], _ => true
  | _ :: _, [] => false
  | a :: p', b :: s' => Ascii.eqb a b && startswith p' s'
  end.

Definition endswith (p s : str) : bool := startswith (rev p) (rev s).

Fixpoint str_eqb (a b : str) : bool :=
  match a, b with
  | [], [] => true
  | x :: a', y :: b' => Ascii.eqb x y && str_eqb a' b'
  | _, _ => false
  end.

(** [posixpath.join(a, *p)]: a component starting with the separator
    discards what precedes it; otherwise components are glued with one
    separator unless the path so far is empty or already ends with it. *)
Definition join2 (path b : str) : str :=
  if startswith (lit "/") b then b
  else match path with
       | [] => b
       | _ => if endswith (lit "/") path then path ++ b
              else path ++ lit "/" ++ b
       end.

Definition path_join (a : str) (p : list str) : str := fold_left join2 p a.

(** [s.split(sep)] for a non-empty separator: the leftmost occurrences,
    not overlapping.  [skip] counts the characters of a separator that
    has been recognised and is still being consumed; [cur] holds the
    piece under construction, reversed. *)
Fixpoint split_go (sep s : str) (skip : nat) (cur : str) : list str :=
  match s with
  | [] => [rev cur]
  | c :: s' =>
      match skip with
      | S k => split_go sep s' k cur
      | O => if startswith sep s
             then rev cur :: split_go sep s' (List.length sep - 1) []
             else split_go sep s' O (c :: cur)
      end
  end.

Definition split (sep s : str) : list str := split_go sep s O [].

(** [x[-1]] and [x[0]] on the result of [split], which is never empty. *)
Definition last_piece (l : list str) : str := last l [].
Definition first_piece (l : list str) : str := hd [] l.

(** Exceptions: the builtin ones the script can raise by itself, the one
    torch raises, and an opaque one for anything a library raises for
    reasons of its own (network, device, file system). *)
Inductive Exn : Type :=
| ValueError (what : string)
| ZeroDivisionError
| TypeError (what : string)
| IndexError (what : string)
| RuntimeError (what : string)
| LibraryError (what : string).

(** [int(s)]: surrounding whitespace is dropped, one sign is allowed,
    the rest is a non-empty run of decimal digits in which single
    underscores may separate digits.  The whitespace characters below 256
    are the codes 9 to 13, 28 to 32, 133 and 160. *)
Definition is_space (c : ascii) : bool :=
  let n := N_of_ascii c in
  (((9 <=? n) && (n <=? 13)) || ((28 <=? n) && (n <=? 32))
   || (n =? 133) || (n =? 160))%N.

Definition digit_val (c : ascii) : option Z :=
  let n := N_of_ascii c in
  if ((48 <=? n) && (n <=? 57))%N then Some (Z.of_N n - 48) else None.

Fixpoint lstrip (s : str) : str :=
  match s with
  | c :: s' => if is_space c then lstrip s' else s
  | [] => []
  end.

Definition strip (s : str) : str := rev (lstrip (rev (lstrip s))).

Fixpoint parse_digits (s : str) (acc : Z) (after_digit : bool) : option Z :=
  match s with
  | [] => if after_digit then Some acc else None
  | c :: s' =>
      match digit_val c with
      | Some d => parse_digits s' (10 * acc + d) true
      | None =>
          if Ascii.eqb c "_"%char && after_digit
          then match s' with
               | [] => None
               | _ => parse_digits s' acc false
               end
          else None
      end
  end.

Definition int (s : str) : Exn + Z :=
  let body := strip s in
  let parsed :=
    match body with
    | c :: r =>
        if Ascii.eqb c "-"%char then option_map Z.opp (parse_digits r 0 false)
        else if Ascii.eqb c "+"%char then parse_digits r 0 false
        else parse_digits body 0 false
    | [] => None
    end in
  match parsed with
  | Some z => inr z
  | None => inl (ValueError "invalid literal for int() with base 10")
  end.

(** [str(n)] for an integer: decimal digits, most significant first, with
    a minus sign for negatives.  The fuel is the bit length, which bounds
    the number of decimal digits. *)
Definition digit_char (d : Z) : ascii := ascii_of_N (48 + Z.to_N d).

Fixpoint digits_go (fuel : nat) (n : Z) (acc : str) : str :=
  match fuel with
  | O => acc
  | S f =>
      let acc' := digit_char (n mod 10) :: acc in
      if n <? 10 then acc' else digits_go f (n / 10) acc'
  end.

Definition digits (n : Z) : str := digits_go (S (Z.to_nat (Z.log2 n))) n [].

Definition str_of_int (z : Z) : str :=
  if z <? 0 then "-"%char :: digits (- z) else digits z.

(** [sorted(l, key=key)]: every key is computed first, in order, and the
    first failure is raised; the sort itself is stable. *)
Fixpoint keyed {A} (key : A -> Exn + Z) (l : list A) : Exn + list (Z * A) :=
  match l with
  | [] => inr []
  | x :: l' =>
      match key x with
      | inl e => inl e
      | inr k =>
          match keyed key l' with
          | inl e => inl e
          | inr r => inr ((k, x) :: r)
          end
      end
  end.

Fixpoint insert_by_key {A} (x : Z * A) (l : list (Z * A)) : list (Z * A) :=
  match l with
  | [] => [x]
  | y :: l' => if fst x <=? fst y then x :: l else y :: insert_by_key x l'
  end.

Definition sort_by_key {A} (l : list (Z * A)) : list (Z * A) :=
  fold_right insert_by_key [] l.

Definition sorted {A} (key : A -> Exn + Z) (l : list A) : Exn + list A :=
  match keyed key l with
  | inl e => inl e
  | inr kl => inr (map snd (sort_by_key kl))
  end.

End Py.
Import Py.


(** ** Values of the libraries, kept symbolic *)

Inductive Device : Type := CPU | CUDA.

(** A floating-point literal of the source, kept as written:
    [mantissa * 10 ^ exponent10]. *)
Record FloatLit : Type := { mantissa : Z; exponent10 : Z }.

Record MappingParameter : Type := { weight_scaling_omega : FloatLit }.

Inductive RpuConfig : Type :=
| MixedPrecisionEcRamMOPreset (mapping : MappingParameter).

(** Layers and containers of [torch.nn] and [aihwkit.nn]. *)
Inductive Module : Type :=
| Linear (in_features out_features : Z)
| AnalogLinear (in_features out_features : Z) (bias : bool) (rpu_config : RpuConfig)
| BatchNorm1d (num_features : Z)
| ReLU (inplace : bool)
| LeakyReLU (negative_slope : FloatLit) (inplace : bool)
| Sigmoid
| Sequential (layers : list Module)
| AnalogSequential (layers : list Module).

(** The two classes of the script; each holds one container. *)
Inductive Net : Type :=
| GeneratorNet (gen : Module)
| DiscriminatorNet (disc : Module).

Inductive Criterion : Type := BCEWithLogitsLoss.

Inductive Optimizer : Type := AnalogSGD (params : Net) (lr : FloatLit).

(** A tensor is the term of the operations that produced it. *)
Inductive Tensor : Type :=
| Batch (epoch index : nat) (shape : list Z)   (* yielded by the data loader *)
| Randn (n z : Z)                              (* torch.randn(n, z) *)
| To (t : Tensor) (d : Device)                 (* t.to(d) *)
| Detach (t : Tensor)                          (* t.detach() *)
| Cpu (t : Tensor)                             (* t.cpu() *)
| View (t : Tensor) (dims : list Z)            (* t.view( *dims ) *)
| UpTo (t : Tensor) (k : Z)                    (* t[:k] *)
| Apply (net : Net) (x : Tensor)               (* net(x) *)
| ZerosLike (t : Tensor)
| OnesLike (t : Tensor)
| Loss (c : Criterion) (input target : Tensor) (* criterion(input, target) *)
| Add (a b : Tensor)
| DivBy (a : Tensor) (d : Z)
| MakeGrid (t : Tensor) (nrow : Z).            (* make_grid(t, nrow=nrow) *)

Definition numel (shape : list Z) : Z := fold_right Z.mul 1 shape.

(** [set_last s o]: the shape of a dense layer's output. *)
Fixpoint set_last (s : list Z) (o : Z) : list Z :=
  match s with
  | [] => []
  | [_] => [o]
  | d :: s' => d :: set_last s' o
  end.

(** Output shape of a forward pass; failures inside a forward pass are
    left to the library. *)
Fixpoint forward_shape (m : Module) (s : list Z) : list Z :=
  match m with
  | Linear _ o => set_last s o
  | AnalogLinear _ o _ _ => set_last s o
  | Sequential ms | AnalogSequential ms =>
      (fix through (ms : list Module) (s : list Z) : list Z :=
         match ms with
         | [] => s
         | m' :: ms' => through ms' (forward_shape m' s)
         end) ms s
  | _ => s
  end.

Definition net_shape (n : Net) (s : list Z) : list Z :=
  match n with
  | GeneratorNet m => forward_shape m s
  | DiscriminatorNet m => forward_shape m s
  end.

(** Shape inference of [view], after ATen's [infer_size]: at most one
    dimension is -1 and is computed from the number of elements. *)
Fixpoint scan_dims (dims : list Z) (newsize : Z) (hole : bool) : Exn + (Z * bool) :=
  match dims with
  | [] => inr (newsize, hole)
  | d :: ds =>
      if d =? -1 then
        if hole then inl (RuntimeError "only one dimension can be inferred")
        else scan_dims ds newsize true
      else if 0 <=? d then scan_dims ds (newsize * d) hole
      else inl (RuntimeError "invalid shape dimension")
  end.

Definition infer_size (n : Z) (dims : list Z) : Exn + list Z :=
  match scan_dims dims 1 false with
  | inl e => inl e
  | inr (newsize, hole) =>
      if (n =? newsize) || (hole && (0 <? newsize) && (n mod newsize =? 0)) then
        if hole then
          if newsize =? 0
          then inl (RuntimeError "cannot reshape tensor of 0 elements: -1 is ambiguous")
          else inr (map (fun d => if d =? -1 then n / newsize else d) dims)
        else inr dims
      else inl (RuntimeError "shape is invalid for input size")
  end.

(** [t[:k]] along the first dimension. *)
Definition upto_len (d k : Z) : Z :=
  if k <? 0 then Z.max 0 (d + k) else Z.min d k.

(** torchvision's [make_grid] (padding 2): a 2-D or 3-D input becomes a
    batch of one, single-channel images are tripled, a batch of one is
    returned as it is, and otherwise [min nrow n] images go in each row. *)
Definition grid_batch (s : list Z) : list Z :=
  let s1 := match s with [h; w] => [1; h; w] | _ => s end in
  let s2 := match s1 with
            | [c; h; w] => [1; (if c =? 1 then 3 else c); h; w]
            | _ => s1
            end in
  match s2 with
  | [n; c; h; w] => [n; (if c =? 1 then 3 else c); h; w]
  | _ => s2
  end.

Definition grid_columns (n nrow : Z) : Z := Z.min nrow n.

Definition grid_rows (n nrow : Z) : Z := - ((- n) / grid_columns n nrow).

Definition grid_shape (s : list Z) (nrow : Z) : Exn + list Z :=
  match grid_batch s with
  | [n; c; h; w] =>
      if n =? 1 then inr [c; h; w]
      else if grid_columns n nrow =? 0 then inl ZeroDivisionError
      else inr [c; (h + 2) * grid_rows n nrow + 2; (w + 2) * grid_columns n nrow + 2]
  | _ => inl (IndexError "make_grid: dimension out of range")
  end.

Definition or_nil (r : Exn + list Z) : list Z :=
  match r with inr s => s | inl _ => [] end.

Fixpoint shape_of (t : Tensor) : list Z :=
  match t with
  | Batch _ _ s => s
  | Randn n z => [n; z]
  | To t' _ | Detach t' | Cpu t' | ZerosLike t' | OnesLike t' => shape_of t'
  | View t' dims => or_nil (infer_size (numel (shape_of t')) dims)
  | UpTo t' k =>
      match shape_of t' with
      | d :: r => upto_len d k :: r
      | [] => []
      end
  | Apply net x => net_shape net (shape_of x)
  | Loss _ _ _ => []
  | Add a _ => shape_of a
  | DivBy a _ => shape_of a
  | MakeGrid t' nrow => or_nil (grid_shape (shape_of t') nrow)
  end.

Fixpoint device_of (t : Tensor) : Device :=
  match t with
  | Batch _ _ _ | Randn _ _ => CPU
  | To _ d => d
  | Cpu _ => CPU
  | Detach t' | View t' _ | UpTo t' _ | ZerosLike t' | OnesLike t' => device_of t'
  | Apply _ x => device_of x
  | Loss _ i _ => device_of i
  | Add a _ | DivBy a _ => device_of a
  | MakeGrid t' _ => device_of t'
  end.

(** Python numbers met in the running means: the integer 0 they start
    from, the float read from a loss, and the arithmetic on them. *)
Inductive Num : Type :=
| NInt (z : Z)
| NItem (loss : Tensor)
| NDiv (a : Num) (d : Z)
| NAdd (a b : Num).

(** What the script prints (the time of day comes from the preceding
    call of [datetime.now]). *)
Inductive Msg : Type :=
| MsgStarted
| MsgStep (cur_step : Z) (mean_generator_loss mean_discriminator_loss : Num)
| MsgRpuConfig (c : RpuConfig)
| MsgNet (n : Net)
| MsgCompleted.

Record DataLoader : Type := { batch_shapes : list (list Z) }.

(** ** Library calls, events and the world *)

Inductive Call : Type :=
| MakeDirs (path : str) (exist_ok : bool)          (* os.makedirs *)
| ManualSeed (seed : Z)                            (* torch.manual_seed *)
| NewToTensor                                      (* transforms.ToTensor() *)
| NewMNIST (root : str) (download : bool)          (* MNIST(root, download=..) *)
| NewDataLoader (batch_size : Z) (shuffle : bool)  (* DataLoader(..) *)
| Now                                              (* datetime.now() *)
| Print (m : Msg)
| ModuleInit                                       (* super().__init__() *)
| New (m : Module)                                 (* a layer or container *)
| NetTo (n : Net) (d : Device)                     (* net.to(device) *)
| Parameters (n : Net)                             (* net.parameters() *)
| NewOptimizer (o : Optimizer)                     (* AnalogSGD(params, lr=..) *)
| Regroup (o : Optimizer) (n : Net)                (* regroup_param_groups *)
| NewCriterion (c : Criterion)                     (* nn.BCEWithLogitsLoss() *)
| LoaderIter (epoch : nat)                         (* iter(dataloader) *)
| LoaderNext                                       (* next batch, or the end *)
| Len (t : Tensor)                                 (* len(t) *)
| Compute (t : Tensor)                             (* the operation at the root of t *)
| ZeroGrad (o : Optimizer)
| Backward (loss : Tensor)
| Step (o : Optimizer)
| Item (loss : Tensor)                             (* loss.item() *)
| SaveImage (grid : Tensor) (path : str)           (* save_image(grid, path) *)
| Figure (width height : Z)                        (* plt.figure(figsize=..) *)
| Axis (arg : str)                                 (* plt.axis(arg) *)
| Glob (pattern : str)                             (* glob.glob(pattern) *)
| Imread (path : str)                              (* plt_image.imread *)
| Imshow (path : str)                              (* plt.imshow of that image *)
| NewArtistAnimation (frames : list str) (interval repeat_delay : Z) (blit : bool)
| NewPillowWriter
| AniSave (path : str)                             (* ani.save(path, writer=..) *)
| Show.                                            (* plt.show() *)

(** A call either returned or raised. *)
Inductive Event : Type :=
| Returned (c : Call)
| Raised (c : Call) (e : Exn).

Definition call_of (ev : Event) : Call :=
  match ev with
  | Returned c => c
  | Raised c _ => c
  end.

(** What the process finds when it starts.  [raises] decides, from the
    events so far (most recent first) and the call about to be made,
    whether the library raises for a reason of its own. *)
Record Env : Type := {
  argv : list str;
  cwd : str;
  cuda_compiled : bool;
  dataset_len : Z;
  mnist_files : list str;
  initial_files : list str;
  raises : list Event -> Call -> option Exn
}.

(** Failures that follow from the arguments alone. *)
Definition lib_error (c : Call) : option Exn :=
  match c with
  | Len t =>
      match shape_of t with
      | [] => Some (TypeError "len() of a 0-d tensor")
      | _ => None
      end
  | Compute (Randn n z) =>
      if (n <? 0) || (z <? 0)
      then Some (RuntimeError "negative dimension") else None
  | Compute (View t dims) =>
      match infer_size (numel (shape_of t)) dims with
      | inl e => Some e
      | inr _ => None
      end
  | Compute (UpTo t _) =>
      match shape_of t with
      | [] => Some (IndexError "slice of a 0-d tensor")
      | _ => None
      end
  | Compute (MakeGrid t nrow) =>
      match grid_shape (shape_of t) nrow with
      | inl e => Some e
      | inr _ => None
      end
  | _ => None
  end.

Definition outcome (env : Env) (h : list Event) (c : Call) : option Exn :=
  match raises env h c with
  | Some e => Some e
  | None => lib_error c
  end.

(** The files that exist, as a list of paths. *)
Definition add_file (p : str) (fs : list str) : list str :=
  if existsb (str_eqb p) fs then fs else p :: fs.

Definition effect (env : Env) (ev : Event) (fs : list str) : list str :=
  match ev with
  | Returned (SaveImage _ p) => add_file p fs
  | Returned (AniSave p) => add_file p fs
  | Returned (NewMNIST root true) =>
      fold_right (fun f => add_file (root ++ lit "/" ++ f)) fs (mnist_files env)
  | _ => fs
  end.

(** The files after the events [h] (most recent first). *)
Definition files_after (env : Env) (h : list Event) : list str :=
  fold_right (effect env) (initial_files env) h.

(** Matching of a glob pattern whose only special characters are [*] and
    [?]; neither matches the path separator. *)
Fixpoint wild (p s : str) : bool :=
  match p with
  | [] => match s with [] => true | _ => false end
  | c :: p' =>
      if Ascii.eqb c "*"%char then
        (fix star (s : str) : bool :=
           wild p' s ||
           match s with
           | [] => false
           | x :: s' => negb (Ascii.eqb x "/"%char) && star s'
           end) s
      else
        match s with
        | [] => false
        | x :: s' =>
            (if Ascii.eqb c "?"%char then negb (Ascii.eqb x "/"%char)
             else Ascii.eqb c x) && wild p' s'
        end
  end.

Definition glob (pattern : str) (fs : list str) : list str :=
  filter (wild pattern) fs.

(** ** Programs *)

(** A program makes calls, may raise, and ends with a value.  The one
    call whose answer depends on the world is [glob]. *)
Inductive Prog (A : Type) : Type :=
| Ret (a : A)
| Raise (e : Exn)
| Do (c : Call) (k : Prog A)
| Listing (pattern : str) (k : list str -> Prog A).

Arguments Ret {A} a.
Arguments Raise {A} e.
Arguments Do {A} c k.
Arguments Listing {A} pattern k.

Fixpoint bind {A B} (m : Prog A) (f : A -> Prog B) : Prog B :=
  match m with
  | Ret a => f a
  | Raise e => Raise e
  | Do c k => Do c (bind k f)
  | Listing pat k => Listing pat (fun l => bind (k l) f)
  end.

Declare Scope prog_scope.
Delimit Scope prog_scope with prog.
Notation "x <- m ;; k" := (bind m (fun x => k))
  (at level 61, m at next level, right associativity) : prog_scope.
Notation "m ;; k" := (bind m (fun _ => k))
  (at level 61, right associativity) : prog_scope.
Local Open Scope prog_scope.

Definition call (c : Call) : Prog unit := Do c (Ret tt).

Definition tensor (t : Tensor) : Prog Tensor := Do (Compute t) (Ret t).

Definition lift {A} (r : Exn + A) : Prog A :=
  match r with
  | inl e => Raise e
  | inr a => Ret a
  end.

(** A [for] loop that threads the variables it assigns. *)
Fixpoint for_each {A S} (xs : list A) (body : A -> S -> Prog S) (s : S) : Prog S :=
  match xs with
  | [] => Ret s
  | x :: xs' => s' <- body x s ;; for_each xs' body s'
  end.

(** A run from the history [h] (most recent first): the events it adds,
    oldest first, and how it ends. *)
Fixpoint run {A} (env : Env) (p : Prog A) (h : list Event) : list Event * (Exn + A) :=
  match p with
  | Ret a => ([], inr a)
  | Raise e => ([], inl e)
  | Do c k =>
      match outcome env h c with
      | Some e => ([Raised c e], inl e)
      | None =>
          let (t, r) := run env k (Returned c :: h) in (Returned c :: t, r)
      end
  | Listing pat k =>
      match outcome env h (Glob pat) with
      | Some e => ([Raised (Glob pat) e], inl e)
      | None =>
          let (t, r) := run env (k (glob pat (files_after env h)))
                            (Returned (Glob pat) :: h) in
          (Returned (Glob pat) :: t, r)
      end
  end.

(** ** The script *)

Definition mapping : MappingParameter :=
  {| weight_scaling_omega := {| mantissa := 8; exponent10 := -1 |} |}.
Definition RPU_CONFIG : RpuConfig := MixedPrecisionEcRamMOPreset mapping.

Definition SEED : Z := 1.
Definition N_EPOCHS : Z := 200.
Definition Z_DIM : Z := 64.
Definition DISPLAY_STEP : Z := 500.
Definition BATCH_SIZE : Z := 256.
Definition LR : FloatLit := {| mantissa := 2; exponent10 := -2 |}.

Definition PATH_DATASET : str := path_join (lit "data") [lit "DATASET"].

(** Defaults of [store_tensor_images], [Generator] and [Discriminator]. *)
Definition default_num_images : Z := 25.
Definition default_size : list Z := [1; 28; 28].
Definition default_im_dim : Z := 784.
Definition default_hidden_dim : Z := 128.

Definition py_len (t : Tensor) : Prog Z := Do (Len t) (Ret (hd 0 (shape_of t))).

(** [a / d] on a float and [a % d] on integers. *)
Definition true_div (a : Num) (d : Z) : Prog Num :=
  if d =? 0 then Raise ZeroDivisionError else Ret (NDiv a d).

Definition py_mod (a d : Z) : Prog Z :=
  if d =? 0 then Raise ZeroDivisionError else Ret (a mod d).

Definition forward (net : Net) (x : Tensor) : Prog Tensor := tensor (Apply net x).

(** The batches one pass over the loader yields, and the [for] loop over
    them: one [next] per batch and a last one that ends the pass. *)
Definition batches (dataloader : DataLoader) (epoch : nat) : list Tensor :=
  map (fun ix => Batch epoch (fst ix) (snd ix))
      (combine (seq 0 (List.length (batch_shapes dataloader)))
               (batch_shapes dataloader)).

Definition for_batches {S} (dataloader : DataLoader) (epoch : nat)
    (body : Tensor -> S -> Prog S) (s : S) : Prog S :=
  call (LoaderIter epoch) ;;
  s' <- for_each (batches dataloader epoch)
                 (fun real s => call LoaderNext ;; body real s) s ;;
  call LoaderNext ;;
  Ret s'.

(** Sizes of the batches a loader cuts a dataset into (the last one may
    be short, it is not dropped). *)
Definition batch_sizes (n batch_size : Z) : list Z :=
  repeat batch_size (Z.to_nat (n / batch_size))
  ++ (if n mod batch_size =? 0 then [] else [n mod batch_size]).

Record LoopState : Type := {
  cur_step : Z;
  mean_generator_loss : Num;
  mean_discriminator_loss : Num
}.

Definition get_generator_block (input_dim output_dim : Z) : Prog Module :=
  let lin := AnalogLinear input_dim output_dim true RPU_CONFIG in
  call (New lin) ;;
  call (New (BatchNorm1d output_dim)) ;;
  call (New (ReLU true)) ;;
  let block := AnalogSequential [lin; BatchNorm1d output_dim; ReLU true] in
  call (New block) ;;
  Ret block.

Definition Generator (z_dim im_dim hidden_dim : Z) : Prog Net :=
  call ModuleInit ;;
  b1 <- get_generator_block z_dim hidden_dim ;;
  b2 <- get_generator_block hidden_dim (hidden_dim * 2) ;;
  b3 <- get_generator_block (hidden_dim * 2) (hidden_dim * 4) ;;
  b4 <- get_generator_block (hidden_dim * 4) (hidden_dim * 8) ;;
  let out := AnalogLinear (hidden_dim * 8) im_dim true RPU_CONFIG in
  call (New out) ;;
  call (New Sigmoid) ;;
  let gen := AnalogSequential [b1; b2; b3; b4; out; Sigmoid] in
  call (New gen) ;;
  Ret (GeneratorNet gen).

Definition get_noise (n_samples z_dim : Z) (device : Device) : Prog Tensor :=
  t <- tensor (Randn n_samples z_dim) ;;
  tensor (To t device).

Definition get_discriminator_block (input_dim output_dim : Z) : Prog Module :=
  let lin := Linear input_dim output_dim in
  let act := LeakyReLU {| mantissa := 2; exponent10 := -1 |} true in
  call (New lin) ;;
  call (New act) ;;
  let block := Sequential [lin; act] in
  call (New block) ;;
  Ret block.

Definition Discriminator (im_dim hidden_dim : Z) : Prog Net :=
  call ModuleInit ;;
  b1 <- get_discriminator_block im_dim (hidden_dim * 4) ;;
  b2 <- get_discriminator_block (hidden_dim * 4) (hidden_dim * 2) ;;
  b3 <- get_discriminator_block (hidden_dim * 2) hidden_dim ;;
  let out := Linear hidden_dim 1 in
  call (New out) ;;
  let disc := Sequential [b1; b2; b3; out] in
  call (New disc) ;;
  Ret (DiscriminatorNet disc).

Definition get_disc_loss (gen disc : Net) (criterion : Criterion) (real : Tensor)
    (num_images z_dim : Z) (device : Device) : Prog Tensor :=
  noise_vector <- get_noise num_images z_dim device ;;
  generated_images <- forward gen noise_vector ;;
  detached <- tensor (Detach generated_images) ;;
  test_fake_im <- forward disc detached ;;
  zeros <- tensor (ZerosLike test_fake_im) ;;
  test_fake_im_loss <- tensor (Loss criterion test_fake_im zeros) ;;
  real_detached <- tensor (Detach real) ;;
  test_real_im <- forward disc real_detached ;;
  ones <- tensor (OnesLike test_real_im) ;;
  test_real_im_loss <- tensor (Loss criterion test_real_im ones) ;;
  total <- tensor (Add test_real_im_loss test_fake_im_loss) ;;
  tensor (DivBy total 2).

Definition get_gen_loss (gen disc : Net) (criterion : Criterion)
    (num_images z_dim : Z) (device : Device) : Prog Tensor :=
  noise_vector <- get_noise num_images z_dim device ;;
  generated_images <- forward gen noise_vector ;;
  test_fake_im <- forward disc generated_images ;;
  ones <- tensor (OnesLike test_fake_im) ;;
  tensor (Loss criterion test_fake_im ones).

Section Script.

Variable env : Env.

Definition USE_CUDA : Z := if cuda_compiled env then 1 else 0.
Definition DEVICE : Device := if USE_CUDA =? 0 then CPU else CUDA.

Definition RESULTS : str := path_join (cwd env) [lit "results"; lit "GAN"].

Definition store_tensor_images (image_tensor : Tensor) (label : str)
    (current_step num_images : Z) (size : list Z) : Prog unit :=
  detached <- tensor (Detach image_tensor) ;;
  on_cpu <- tensor (Cpu detached) ;;
  image_unflat <- tensor (View on_cpu (-1 :: size)) ;;
  first_images <- tensor (UpTo image_unflat num_images) ;;
  image_grid <- tensor (MakeGrid first_images 5) ;;
  call (SaveImage image_grid
          (path_join RESULTS
             [label ++ lit "_step_" ++ str_of_int current_step ++ lit ".png"])).

(** The sort key of [show_animation_fake_images]:
    [int(s.split('_')[-1].split('.png')[0])]. *)
Definition step_of_path (s : str) : Exn + Z :=
  int (first_piece (split (lit ".png") (last_piece (split (lit "_") s)))).

Definition show_animation_fake_images : Prog unit :=
  call (Figure 8 8) ;;
  call (Axis (lit "off")) ;;
  found <- Listing (RESULTS ++ lit "/fake_*.png") (fun l => Ret l) ;;
  sorted_available_images <- lift (sorted step_of_path found) ;;
  ims <- for_each sorted_available_images
           (fun i ims => call (Imread i) ;; call (Imshow i) ;; Ret (ims ++ [i]))
           [] ;;
  call (NewArtistAnimation ims 500 1000 true) ;;
  call NewPillowWriter ;;
  call (AniSave (path_join RESULTS [lit "replay_fake_images_gan.gif"])) ;;
  call Show.

(** One pass of the inner loop of [training_loop]. *)
Definition train_batch (gen disc : Net) (gen_opt disc_opt : Optimizer)
    (criterion : Criterion) (display_step : Z)
    (real0 : Tensor) (st : LoopState) : Prog LoopState :=
  cur_batch_size <- py_len real0 ;;
  flat <- tensor (View real0 [cur_batch_size; -1]) ;;
  real <- tensor (To flat DEVICE) ;;
  call (ZeroGrad disc_opt) ;;
  disc_loss <- get_disc_loss gen disc criterion real cur_batch_size Z_DIM DEVICE ;;
  call (Backward disc_loss) ;;
  call (Step disc_opt) ;;
  call (ZeroGrad gen_opt) ;;
  gen_loss <- get_gen_loss gen disc criterion cur_batch_size Z_DIM DEVICE ;;
  call (Backward gen_loss) ;;
  call (Step gen_opt) ;;
  call (Item disc_loss) ;;
  d_share <- true_div (NItem disc_loss) display_step ;;
  let mean_d := NAdd (mean_discriminator_loss st) d_share in
  call (Item gen_loss) ;;
  g_share <- true_div (NItem gen_loss) display_step ;;
  let mean_g := NAdd (mean_generator_loss st) g_share in
  remainder <- py_mod (cur_step st) display_step ;;
  means <-
    (if (remainder =? 0) && (0 <? cur_step st) then
       call Now ;;
       call (Print (MsgStep (cur_step st) mean_g mean_d)) ;;
       fake_noise <- get_noise cur_batch_size Z_DIM DEVICE ;;
       fake <- forward gen fake_noise ;;
       store_tensor_images fake (lit "fake_images") (cur_step st)
                           default_num_images default_size ;;
       Ret (NInt 0, NInt 0)
     else Ret (mean_g, mean_d)) ;;
  Ret {| cur_step := cur_step st + 1;
         mean_generator_loss := fst means;
         mean_discriminator_loss := snd means |}.

(** [range(n_epochs)] is [seq 0 (Z.to_nat n_epochs)]: empty when [n_epochs]
    is not positive.  The loop variables are threaded as a [LoopState]. *)
Definition training_loop (gen disc : Net) (gen_opt disc_opt : Optimizer)
    (criterion : Criterion) (dataloader : DataLoader)
    (n_epochs display_step : Z) : Prog unit :=
  let start := {| cur_step := 0;
                  mean_generator_loss := NInt 0;
                  mean_discriminator_loss := NInt 0 |} in
  for_each (seq 0 (Z.to_nat n_epochs))
    (fun epoch st =>
       for_batches dataloader epoch
         (train_batch gen disc gen_opt disc_opt criterion display_step) st)
    start ;;
  Ret tt.

Definition main : Prog unit :=
  call (MakeDirs RESULTS true) ;;
  call (ManualSeed SEED) ;;
  call NewToTensor ;;
  call (NewMNIST PATH_DATASET true) ;;
  call (NewDataLoader BATCH_SIZE true) ;;
  let dataloader :=
    {| batch_shapes := map (fun b => [b; 1; 28; 28])
                           (batch_sizes (dataset_len env) BATCH_SIZE) |} in
  call Now ;;
  call (Print MsgStarted) ;;
  gen <- Generator Z_DIM default_im_dim default_hidden_dim ;;
  call (NetTo gen DEVICE) ;;
  call (Parameters gen) ;;
  let gen_opt := AnalogSGD gen LR in
  call (NewOptimizer gen_opt) ;;
  call (Regroup gen_opt gen) ;;
  disc <- Discriminator default_im_dim default_hidden_dim ;;
  call (NetTo disc DEVICE) ;;
  call (Parameters disc) ;;
  let disc_opt := AnalogSGD disc LR in
  call (NewOptimizer disc_opt) ;;
  call (Regroup disc_opt disc) ;;
  call (Print (MsgRpuConfig RPU_CONFIG)) ;;
  call (Print (MsgNet gen)) ;;
  call (Print (MsgNet disc)) ;;
  call (NewCriterion BCEWithLogitsLoss) ;;
  training_loop gen disc gen_opt disc_opt BCEWithLogitsLoss dataloader
                N_EPOCHS DISPLAY_STEP ;;
  show_animation_fake_images ;;
  call Now ;;
  call (Print MsgCompleted).

End Script.

(** ** Vocabulary of the properties *)

(** The run without any failure of the libraries' own: the calls made
    and the result, where only the failures that follow from the
    arguments occur.  It is meant for programs that do not list files. *)
Fixpoint dry {A} (p : Prog A) : list Call * (Exn + A) :=
  match p with
  | Ret a => ([], inr a)
  | Raise e => ([], inl e)
  | Do c k =>
      match lib_error c with
      | Some e => ([c], inl e)
      | None => let (t, r) := dry k in (c :: t, r)
      end
  | Listing pat _ => ([Glob pat], inl (LibraryError "listing"))
  end.

(** [safe P Q p]: every call [p] can make satisfies [P], and every value
    it can return satisfies [Q]. *)
Fixpoint safe {A} (P : Call -> Prop) (Q : A -> Prop) (p : Prog A) : Prop :=
  match p with
  | Ret a => Q a
  | Raise _ => True
  | Do c k => P c /\ safe P Q k
  | Listing pat k => P (Glob pat) /\ forall l, safe P Q (k l)
  end.

Definition not_glob (c : Call) : Prop :=
  match c with
  | Glob _ => False
  | _ => True
  end.

Definition listing_free {A} (p : Prog A) : Prop := safe not_glob (fun _ => True) p.

Definition calls (t : list Event) : list Call := map call_of t.


(** The path [store_tensor_images] writes the fake images of a step to,
    and the path of the animation. *)
Definition snapshot_path (env : Env) (step : Z) : str :=
  path_join (RESULTS env)
    [lit "fake_images" ++ lit "_step_" ++ str_of_int step ++ lit ".png"].

Definition animation_path (env : Env) : str :=
  path_join (RESULTS env) [lit "replay_fake_images_gan.gif"].

Definition is_digit (c : ascii) : bool :=
  match digit_val c with
  | Some _ => true
  | None => false
  end.


(** Example worlds: a process started in [/w] with the given files, and a
    library that never fails for reasons of its own. *)
Definition quiet_env (files : list str) (samples : Z) : Env :=
  {| argv := []; cwd := lit "/w"; cuda_compiled := false;
     dataset_len := samples;
     mnist_files := [lit "MNIST/raw/train-images-idx3-ubyte"];
     initial_files := files;
     raises := fun _ _ => None |}.


(** The dense layers inside a module, in the order data meets them. *)
Fixpoint linears (m : Module) : list Module :=
  match m with
  | Linear _ _ => [m]
  | AnalogLinear _ _ _ _ => [m]
  | Sequential ms | AnalogSequential ms =>
      (fix inside (ms : list Module) : list Module :=
         match ms with
         | [] => []
         | m' :: ms' => linears m' ++ inside ms'
         end) ms
  | _ => []
  end.

Definition is_analog (m : Module) : bool :=
  match m with
  | AnalogLinear _ _ _ _ => true
  | _ => false
  end.

Definition is_standard_dense (m : Module) : bool :=
  match m with
  | Linear _ _ => true
  | _ => false
  end.

Definition net_module (n : Net) : Module :=
  match n with
  | GeneratorNet m => m
  | DiscriminatorNet m => m
  end.

(** The calls [training_loop] can make. *)
Definition training_call (env : Env) (c : Call) : Prop :=
  match c with
  | LoaderIter _ | LoaderNext | Len _ => True
  | ZeroGrad _ | Backward _ | Step _ | Item _ => True
  | Now | Print (MsgStep _ _ _) => True
  | Compute (Randn _ z) => z = Z_DIM
  | Compute _ => True
  | SaveImage _ p => exists n, p = snapshot_path env n
  | _ => False
  end.

(** The calls [main] can make. *)
Definition main_call (env : Env) (c : Call) : Prop :=
  match c with
  | MakeDirs p _ => p = RESULTS env
  | NewMNIST root _ => root = PATH_DATASET
  | AniSave p => p = animation_path env
  | Glob p => p = RESULTS env ++ lit "/fake_*.png"
  | SaveImage _ _ | Compute _ | LoaderIter _ | LoaderNext | Len _
  | ZeroGrad _ | Backward _ | Step _ | Item _ => training_call env c
  | _ => True
  end.


Definition with_argv (a : list str) (env : Env) : Env :=
  {| argv := a; cwd := cwd env; cuda_compiled := cuda_compiled env;
     dataset_len := dataset_len env; mnist_files := mnist_files env;
     initial_files := initial_files env; raises := raises env |}.



(** *** What the training loop is expected to do *)

Definition is_update (c : Call) : bool :=
  match c with
  | ZeroGrad _ | Backward _ | Step _ => true
  | Compute (Loss _ _ _) | Compute (Add _ _) | Compute (DivBy _ _) => true
  | _ => false
  end.

Definition is_save (c : Call) : bool :=
  match c with
  | SaveImage _ _ => true
  | _ => false
  end.

Definition is_epoch (c : Call) : bool :=
  match c with
  | LoaderIter _ => true
  | _ => false
  end.

Definition observed (c : Call) : bool := is_update c || is_save c || is_epoch c.

Definition saved_paths (l : list Call) : list str :=
  flat_map (fun c => match c with SaveImage _ p => [p] | _ => [] end) l.

(** All the batches of a training, in the order they are met. *)
Definition all_batches (dataloader : DataLoader) (n_epochs : Z) : list Tensor :=
  flat_map (batches dataloader) (seq 0 (Z.to_nat n_epochs)).

(** The steps [0, 1, ..., total - 1]. *)
Definition steps_below (total : Z) : list Z := map Z.of_nat (seq 0 (Z.to_nat total)).

Section Expected.

Variables (env : Env) (gen disc : Net) (gen_opt disc_opt : Optimizer).
Variables (criterion : Criterion) (display_step : Z).

Definition noise_for (real0 : Tensor) : Tensor :=
  To (Randn (hd 0 (shape_of real0)) Z_DIM) (DEVICE env).

(** One update of the discriminator followed by one of the generator,
    for the batch [real0]: the losses computed and the optimizer calls. *)
Definition update_round (real0 : Tensor) : list Call :=
  let real := To (View real0 [hd 0 (shape_of real0); -1]) (DEVICE env) in
  let fake := Apply gen (noise_for real0) in
  let on_fake := Apply disc (Detach fake) in
  let on_real := Apply disc (Detach real) in
  let fake_loss := Loss criterion on_fake (ZerosLike on_fake) in
  let real_loss := Loss criterion on_real (OnesLike on_real) in
  let disc_loss := DivBy (Add real_loss fake_loss) 2 in
  let judged := Apply disc fake in
  let gen_loss := Loss criterion judged (OnesLike judged) in
  [ZeroGrad disc_opt;
   Compute fake_loss; Compute real_loss; Compute (Add real_loss fake_loss);
   Compute disc_loss;
   Backward disc_loss;
   Step disc_opt;
   ZeroGrad gen_opt;
   Compute gen_loss;
   Backward gen_loss;
   Step gen_opt].

Definition snapshot_due (step : Z) : bool :=
  (step mod display_step =? 0) && (0 <? step).

Definition snapshot_of (step : Z) (real0 : Tensor) : Call :=
  SaveImage
    (MakeGrid (UpTo (View (Cpu (Detach (Apply gen (noise_for real0))))
                          [-1; 1; 28; 28]) 25) 5)
    (snapshot_path env step).

Definition expected_batch (step : Z) (real0 : Tensor) : list Call :=
  update_round real0 ++ (if snapshot_due step then [snapshot_of step real0] else []).

Fixpoint expected_batches (step : Z) (xs : list Tensor) : list Call :=
  match xs with
  | [] => []
  | x :: xs' => expected_batch step x ++ expected_batches (step + 1) xs'
  end.

Fixpoint expected_epochs (dataloader : DataLoader) (step : Z) (epochs : list nat)
    : list Call :=
  match epochs with
  | [] => []
  | e :: epochs' =>
      LoaderIter e
      :: expected_batches step (batches dataloader e)
      ++ expected_epochs dataloader
           (step + Z.of_nat (List.length (batches dataloader e))) epochs'
  end.

End Expected.

(** [agrees expected out]: what is observed of the calls of [out] is a
    beginning of [expected], and all of it when [out] ends well. *)
Definition agrees {A} (expected : list Call) (out : list Call * (Exn + A)) : Prop :=
  (exists rest, expected = filter observed (fst out) ++ rest)
  /\ forall a, snd out = inr a -> filter observed (fst out) = expected.


(** The steps [step, step + 1, ...], [n] of them. *)
Definition steps_from (step : Z) (n : nat) : list Z :=
  map (fun i => step + Z.of_nat i) (seq 0 n).


(** A small training for examples: three batches, dense stand-ins for the
    two networks. *)
Definition tiny_loader : DataLoader :=
  {| batch_shapes := [[2; 1; 28; 28]; [2; 1; 28; 28]; [1; 1; 28; 28]] |}.
Definition tiny_gen : Net := GeneratorNet (AnalogLinear 64 784 true RPU_CONFIG).
Definition tiny_disc : Net := DiscriminatorNet (Linear 784 1).
Definition tiny_training (env : Env) (n_epochs display_step : Z) : Prog unit :=
  training_loop env tiny_gen tiny_disc (AnalogSGD tiny_gen LR) (AnalogSGD tiny_disc LR)
                BCEWithLogitsLoss tiny_loader n_epochs display_step.









(** The generator [main] trains, as [Generator(Z_DIM)] builds it. *)
Definition main_generator : Net :=
  let block i o :=
    AnalogSequential [AnalogLinear i o true RPU_CONFIG; BatchNorm1d o; ReLU true] in
  GeneratorNet
    (AnalogSequential
       [block Z_DIM default_hidden_dim;
        block default_hidden_dim (default_hidden_dim * 2);
        block (default_hidden_dim * 2) (default_hidden_dim * 4);
        block (default_hidden_dim * 4) (default_hidden_dim * 8);
        AnalogLinear (default_hidden_dim * 8) default_im_dim true RPU_CONFIG;
        Sigmoid]).


(** *** Vocabulary of further properties *)

(** The networks whose parameters a backward pass from [t] reaches, in
    the order the graph is walked.  [detach] cuts the graph, and tensors
    made by [randn], [zeros_like], [ones_like] or the loader have no
    history. *)
Fixpoint reaches (t : Tensor) : list Net :=
  match t with
  | Batch _ _ _ | Randn _ _ => []
  | Detach _ | ZerosLike _ | OnesLike _ => []
  | To t' _ | Cpu t' | View t' _ | UpTo t' _ | MakeGrid t' _ => reaches t'
  | Apply net x => net :: reaches x
  | Loss _ i target => reaches i ++ reaches target
  | Add a b => reaches a ++ reaches b
  | DivBy a _ => reaches a
  end.







(** The calls [show_animation_fake_images] makes before it reads a
    frame. *)
Definition opens_figure (env : Env) (c : Call) : Prop :=
  c = Figure 8 8 \/ c = Axis (lit "off") \/ c = Glob (RESULTS env ++ lit "/fake_*.png").

(** A world in which no library raises for a reason of its own. *)
Definition never_raises (env : Env) : Prop :=
  forall (h : list Event) (c : Call), raises env h c = None.

(** The file name [store_tensor_images] gives to [label] at a step. *)
Definition image_name (label : str) (current_step : Z) : str :=
  label ++ lit "_step_" ++ str_of_int current_step ++ lit ".png".

(** A call that saves an image saves it at [path]. *)
Definition saves_at (path : str) (c : Call) : Prop :=
  match c with
  | SaveImage _ p => p = path
  | _ => True
  end.

(** A step of the generator's optimizer ([generator = true]) or of the
    discriminator's. *)
Definition is_step_of (generator : bool) (c : Call) : bool :=
  match c with
  | Step (AnalogSGD (GeneratorNet _) _) => generator
  | Step (AnalogSGD (DiscriminatorNet _) _) => negb generator
  | _ => false
  end.

(** The number of features a module returns for an input of [w]
    features, when the input fits: a dense layer takes [in_features] of them
    and batch normalisation [num_features]; the activations take any. *)
Fixpoint out_width (m : Module) (w : Z) : option Z :=
  match m with
  | Linear i o => if w =? i then Some o else None
  | AnalogLinear i o _ _ => if w =? i then Some o else None
  | BatchNorm1d n => if w =? n then Some w else None
  | ReLU _ | LeakyReLU _ _ | Sigmoid => Some w
  | Sequential ms | AnalogSequential ms =>
      (fix through (ms : list Module) (w : Z) : option Z :=
         match ms with
         | [] => Some w
         | m' :: ms' =>
             match out_width m' w with
             | Some w' => through ms' w'
             | None => None
             end
         end) ms w
  end.

(*PROPERTIES*)
(** * Properties *)

Unset Implicit Arguments.

(** ** The builtins on examples *)

Example join_example :
  path_join (lit "/home/u") [lit "results"; lit "GAN"] = lit "/home/u/results/GAN".
Proof. reflexivity. Qed.

Example join_absolute_example :
  path_join (lit "/home/u") [lit "/tmp"; lit "x"] = lit "/tmp/x".
Proof. reflexivity. Qed.

Example split_example :
  split (lit "_") (lit "/r/fake_images_step_500.png")
  = [lit "/r/fake"; lit "images"; lit "step"; lit "500.png"].
Proof. reflexivity. Qed.

Example split_png_example : split (lit ".png") (lit "500.png") = [lit "500"; []].
Proof. reflexivity. Qed.

Example int_example : int (lit " +1_000 ") = inr 1000.
Proof. reflexivity. Qed.

Example int_of_word_example :
  int (lit "images") = inl (ValueError "invalid literal for int() with base 10").
Proof. reflexivity. Qed.

Example str_of_int_example : str_of_int 46800 = lit "46800".
Proof. reflexivity. Qed.

Example sorted_example :
  sorted (fun s => int s) [lit "1000"; lit "500"; lit "20"]
  = inr [lit "20"; lit "500"; lit "1000"].
Proof. reflexivity. Qed.

Example batch_sizes_example : batch_sizes 600 256 = [256; 256; 88].
Proof. reflexivity. Qed.

Example view_example : infer_size 1568 [-1; 1; 28; 28] = inr [2; 1; 28; 28].
Proof. reflexivity. Qed.

Example grid_example : grid_shape [25; 1; 28; 28] 5 = inr [3; 152; 152].
Proof. reflexivity. Qed.

(** ** Runs *)

Lemma run_bind {A B} (env : Env) (m : Prog A) (f : A -> Prog B) (h : list Event) :
  run env (bind m f) h =
  match run env m h with
  | (t1, inl e) => (t1, inl e)
  | (t1, inr a) => let (t2, r) := run env (f a) (rev t1 ++ h) in (t1 ++ t2, r)
  end.
Proof.
  revert h. induction m as [a | e | c k IH | pat k IH]; intros h; simpl.
  - destruct (run env (f a) h); reflexivity.
  - reflexivity.
  - destruct (outcome env h c); [reflexivity |].
    rewrite IH. destruct (run env k (Returned c :: h)) as [t1 [e | a]]; [reflexivity |].
    simpl. rewrite <- app_assoc. simpl.
    destruct (run env (f a) (rev t1 ++ Returned c :: h)); reflexivity.
  - destruct (outcome env h (Glob pat)); [reflexivity |].
    rewrite IH.
    destruct (run env (k (glob pat (files_after env h))) (Returned (Glob pat) :: h))
      as [t1 [e | a]]; [reflexivity |].
    simpl. rewrite <- app_assoc. simpl.
    destruct (run env (f a) (rev t1 ++ Returned (Glob pat) :: h)); reflexivity.
Qed.

Lemma run_bind_ok {A B} (env : Env) (m : Prog A) (f : A -> Prog B) h t b :
  run env (bind m f) h = (t, inr b) ->
  exists t1 a t2,
    run env m h = (t1, inr a) /\ run env (f a) (rev t1 ++ h) = (t2, inr b)
    /\ t = t1 ++ t2.
Proof.
  rewrite run_bind. destruct (run env m h) as [t1 [e | a]]; [discriminate |].
  destruct (run env (f a) (rev t1 ++ h)) as [t2 r] eqn:E2. intros H.
  inversion H; subst. exists t1, a, t2. auto.
Qed.

Lemma run_Do_ok {A} (env : Env) c (k : Prog A) h t a :
  run env (Do c k) h = (t, inr a) ->
  exists t', t = Returned c :: t' /\ run env k (Returned c :: h) = (t', inr a).
Proof.
  simpl. destruct (outcome env h c); [discriminate |].
  destruct (run env k (Returned c :: h)) as [t' r]. intros H.
  inversion H; subst. eauto.
Qed.

(** A raising call ends the run, with the exception it raised. *)
Lemma run_failstop {A} (env : Env) (p : Prog A) h t r :
  run env p h = (t, r) ->
  forall pre c e post, t = pre ++ Raised c e :: post ->
    post = [] /\ r = inl e /\ outcome env (rev pre ++ h) c = Some e.
Proof.
  revert h t r.
  assert (step : forall (c0 : Call) (k : Prog A) (arg : Prog A) h t r,
    (forall h t r, run env arg h = (t, r) ->
       forall pre c e post, t = pre ++ Raised c e :: post ->
         post = [] /\ r = inl e /\ outcome env (rev pre ++ h) c = Some e) ->
    match outcome env h c0 with
    | Some e => ([Raised c0 e], inl e)
    | None => let (t, r) := run env arg (Returned c0 :: h) in (Returned c0 :: t, r)
    end = (t, r) ->
    forall pre c e post, t = pre ++ Raised c e :: post ->
      post = [] /\ r = inl e /\ outcome env (rev pre ++ h) c = Some e).
  { intros c0 _ arg h t r IH H pre c e post Ht.
    destruct (outcome env h c0) as [e0 |] eqn:Eo.
    - injection H as <- <-. destruct pre as [| x pre].
      + simpl in Ht. inversion Ht; subst. auto.
      + simpl in Ht. inversion Ht. destruct pre; discriminate.
    - destruct (run env arg (Returned c0 :: h)) as [t' r'] eqn:Er.
      injection H as <- <-. destruct pre as [| x pre].
      + simpl in Ht. discriminate.
      + simpl in Ht. injection Ht as <- Ht.
        destruct (IH _ _ _ Er pre c e post Ht) as (Hp & Hr & Ho).
        simpl. rewrite <- app_assoc. simpl. auto. }
  induction p as [a | e0 | c0 k IH | pat k IH]; intros h t r H pre c e post Ht.
  - simpl in H. injection H as <- <-. destruct pre; discriminate.
  - simpl in H. injection H as <- <-. destruct pre; discriminate.
  - simpl in H. eapply step; eauto.
  - simpl in H. eapply (step (Glob pat) (k []) (k (glob pat (files_after env h)))); eauto.
Qed.

Lemma run_ok_returned {A} (env : Env) (p : Prog A) h t a :
  run env p h = (t, inr a) -> t = map Returned (calls t).
Proof.
  intros H. assert (F : forall ev, In ev t -> exists c, ev = Returned c).
  { intros [c | c e] Hin; [eauto |].
    apply in_split in Hin. destruct Hin as (pre & post & ->).
    destruct (run_failstop env p h _ _ H pre c e post eq_refl) as (_ & Hr & _).
    discriminate. }
  clear H. induction t as [| ev t IH]; [reflexivity |].
  simpl. destruct (F ev (or_introl eq_refl)) as [c ->]. simpl. f_equal.
  apply IH. intros ev' Hin. apply F. right. exact Hin.
Qed.

(** ** Properties of every call of a program *)

Lemma safe_weaken {A} (P P' : Call -> Prop) (Q Q' : A -> Prop) (p : Prog A) :
  (forall c, P c -> P' c) -> (forall a, Q a -> Q' a) -> safe P Q p -> safe P' Q' p.
Proof.
  intros HP HQ. induction p as [a | e | c k IH | pat k IH]; simpl; auto.
  - intros [Hc Hk]. auto.
  - intros [Hc Hk]. auto.
Qed.

Lemma safe_bind {A B} (P : Call -> Prop) (R : A -> Prop) (Q : B -> Prop)
    (m : Prog A) (f : A -> Prog B) :
  safe P R m -> (forall a, R a -> safe P Q (f a)) -> safe P Q (bind m f).
Proof.
  intros Hm Hf. induction m as [a | e | c k IH | pat k IH]; simpl in *; auto.
  - destruct Hm. auto.
  - destruct Hm. auto.
Qed.

Lemma safe_for_each {A S} (P : Call -> Prop) (I : S -> Prop)
    (xs : list A) (body : A -> S -> Prog S) :
  (forall x s, In x xs -> I s -> safe P I (body x s)) ->
  forall s, I s -> safe P I (for_each xs body s).
Proof.
  induction xs as [| x xs IH]; intros Hb s Hs; simpl; [exact Hs |].
  apply safe_bind with (R := I).
  - apply Hb; simpl; auto.
  - intros s' Hs'. apply IH; [| exact Hs']. intros y s0 Hy. apply Hb. right. exact Hy.
Qed.

Lemma safe_run {A} (env : Env) (P : Call -> Prop) (Q : A -> Prop) (p : Prog A) h t r :
  safe P Q p -> run env p h = (t, r) ->
  Forall P (calls t) /\ forall a, r = inr a -> Q a.
Proof.
  revert h t r. induction p as [a | e | c k IH | pat k IH]; simpl; intros h t r Hs H.
  - injection H as <- <-. split; [constructor |]. intros a' E. injection E as <-. exact Hs.
  - injection H as <- <-. split; [constructor |]. discriminate.
  - destruct Hs as [Hc Hk]. destruct (outcome env h c).
    + injection H as <- <-. split; [repeat constructor; exact Hc | discriminate].
    + destruct (run env k (Returned c :: h)) as [t' r'] eqn:E.
      injection H as <- <-. destruct (IH _ _ _ Hk E) as [F Hq].
      split; [constructor; assumption | exact Hq].
  - destruct Hs as [Hc Hk]. destruct (outcome env h (Glob pat)).
    + injection H as <- <-. split; [repeat constructor; exact Hc | discriminate].
    + destruct (run env (k (glob pat (files_after env h))) (Returned (Glob pat) :: h))
        as [t' r'] eqn:E.
      injection H as <- <-. destruct (IH _ _ _ _ (Hk _) E) as [F Hq].
      split; [constructor; assumption | exact Hq].
Qed.

(** ** Runs without failures of the libraries' own *)

Lemma dry_bind {A B} (m : Prog A) (f : A -> Prog B) :
  dry (bind m f) =
  match dry m with
  | (t1, inl e) => (t1, inl e)
  | (t1, inr a) => let (t2, r) := dry (f a) in (t1 ++ t2, r)
  end.
Proof.
  induction m as [a | e | c k IH | pat k IH]; simpl.
  - destruct (dry (f a)); reflexivity.
  - reflexivity.
  - destruct (lib_error c); [reflexivity |].
    rewrite IH. destruct (dry k) as [t1 [e | a]]; [reflexivity |].
    destruct (dry (f a)); reflexivity.
  - reflexivity.
Qed.

(** A run makes the calls of the dry run, up to the first failure. *)
Lemma run_dry {A} (env : Env) (p : Prog A) h t r :
  listing_free p -> run env p h = (t, r) ->
  (exists rest, fst (dry p) = calls t ++ rest)
  /\ forall a, r = inr a -> dry p = (calls t, inr a).
Proof.
  unfold listing_free. revert h t r.
  induction p as [a | e | c k IH | pat k IH]; simpl; intros h t r Hs H.
  - injection H as <- <-. split; [exists []; reflexivity |].
    intros a' E. injection E as <-. reflexivity.
  - injection H as <- <-. split; [exists []; reflexivity | discriminate].
  - destruct Hs as [_ Hk]. unfold outcome in H.
    destruct (raises env h c) as [e |].
    + injection H as <- <-. split; [| discriminate]. simpl.
      destruct (lib_error c); [exists []; reflexivity |].
      destruct (dry k) as [t' r']. simpl. eauto.
    + destruct (lib_error c) as [e |].
      * injection H as <- <-. split; [exists []; reflexivity | discriminate].
      * destruct (run env k (Returned c :: h)) as [t' r'] eqn:E.
        injection H as <- <-. destruct (IH _ _ _ Hk E) as [[rest Hp] Hq].
        destruct (dry k) as [td rd]. simpl in *. split.
        -- exists rest. rewrite Hp. reflexivity.
        -- intros a Ea. specialize (Hq a Ea). injection Hq as -> ->. reflexivity.
  - destruct Hs as [[] _].
Qed.

(** ** Strings: printing and reading step numbers *)

Lemma startswith_app (p s : str) : startswith p (p ++ s) = true.
Proof.
  induction p as [| a p IH]; simpl; [reflexivity |].
  rewrite Ascii.eqb_refl. exact IH.
Qed.

Lemma split_go_not_nil (sep s : str) (k : nat) (cur : str) : split_go sep s k cur <> [].
Proof.
  revert k cur. induction s as [| c s IH]; intros k cur; simpl; [discriminate |].
  destruct k; [| apply IH].
  destruct (startswith sep (c :: s)); [discriminate | apply IH].
Qed.

Lemma last_skip {A} (x : A) (l : list A) (d : A) : l <> [] -> last (x :: l) d = last l d.
Proof. destruct l; [congruence | reflexivity]. Qed.

Lemma split_char_absent (c : ascii) (s cur : str) :
  ~ In c s -> split_go [c] s 0 cur = [rev cur ++ s].
Proof.
  revert cur. induction s as [| x s IH]; intros cur H; simpl.
  - rewrite app_nil_r. reflexivity.
  - destruct (Ascii.eqb c x) eqn:E.
    + apply Ascii.eqb_eq in E. subst. exfalso. apply H. left. reflexivity.
    + simpl. rewrite IH.
      * simpl. rewrite <- app_assoc. reflexivity.
      * intros Hin. apply H. right. exact Hin.
Qed.

(** The last piece of a split at a character is what follows its last
    occurrence. *)
Lemma split_char_last (c : ascii) (a b : str) :
  ~ In c b -> last_piece (split [c] (a ++ c :: b)) = b.
Proof.
  intros Hb. unfold last_piece, split.
  enough (G : forall cur, last (split_go [c] (a ++ c :: b) 0 cur) [] = b)
    by apply (G []).
  induction a as [| x a IH]; intros cur.
  - simpl. rewrite Ascii.eqb_refl. simpl.
    rewrite (split_char_absent c b [] Hb). reflexivity.
  - change ((x :: a) ++ c :: b) with (x :: (a ++ c :: b)).
    cbn [split_go startswith]. destruct (Ascii.eqb c x); cbn [andb List.length Nat.sub].
    + rewrite last_skip by apply split_go_not_nil. apply IH.
    + apply IH.
Qed.

(** The first piece of a split is what precedes the separator, when the
    separator's first character does not occur before it. *)
Lemma split_first (s0 : ascii) (sep' d rest : str) :
  ~ In s0 d ->
  first_piece (split (s0 :: sep') (d ++ (s0 :: sep') ++ rest)) = d.
Proof.
  intros Hd. unfold first_piece, split.
  enough (G : forall cur,
    hd [] (split_go (s0 :: sep') (d ++ (s0 :: sep') ++ rest) 0 cur) = rev cur ++ d)
    by apply (G []).
  induction d as [| x d IH]; intros cur.
  - change ([] ++ (s0 :: sep') ++ rest) with (s0 :: (sep' ++ rest)).
    cbn [split_go]. change (s0 :: sep' ++ rest) with ((s0 :: sep') ++ rest).
    rewrite startswith_app. simpl. rewrite app_nil_r. reflexivity.
  - change ((x :: d) ++ (s0 :: sep') ++ rest) with (x :: (d ++ (s0 :: sep') ++ rest)).
    cbn [split_go startswith].
    destruct (Ascii.eqb s0 x) eqn:E.
    + apply Ascii.eqb_eq in E. subst. exfalso. apply Hd. left. reflexivity.
    + simpl. rewrite IH.
      * simpl. rewrite <- app_assoc. reflexivity.
      * intros Hin. apply Hd. right. exact Hin.
Qed.

Lemma digit_char_val (d : Z) : 0 <= d < 10 -> digit_val (digit_char d) = Some d.
Proof.
  intros H.
  assert (C : d = 0 \/ d = 1 \/ d = 2 \/ d = 3 \/ d = 4 \/ d = 5 \/ d = 6
              \/ d = 7 \/ d = 8 \/ d = 9) by lia.
  repeat (destruct C as [-> | C]; [reflexivity |]). subst. reflexivity.
Qed.

Lemma digits_go_spec (f : nat) : forall n acc,
  0 <= n < 2 ^ Z.of_nat f -> (0 < f)%nat ->
  exists ds,
    digits_go f n acc = ds ++ acc /\ ds <> []
    /\ Forall (fun c => is_digit c = true) ds
    /\ forall a b tl,
         parse_digits (ds ++ tl) a b
         = parse_digits tl (a * 10 ^ Z.of_nat (List.length ds) + n) true.
Proof.
  induction f as [| f IH]; intros n acc Hn Hf; [lia |].
  assert (Hm : 0 <= n mod 10 < 10) by (apply Z.mod_pos_bound; lia).
  pose proof (digit_char_val _ Hm) as Hd.
  simpl digits_go. destruct (n <? 10) eqn:E.
  - apply Z.ltb_lt in E. rewrite Z.mod_small in * by lia.
    exists [digit_char n]. repeat split.
    + discriminate.
    + constructor; [| constructor]. unfold is_digit. rewrite Hd. reflexivity.
    + intros a b tl. cbn [app parse_digits List.length]. rewrite Hd. f_equal.
      change (Z.of_nat 1) with 1. lia.
  - apply Z.ltb_ge in E.
    assert (Hpow : 2 ^ Z.of_nat (S f) = 2 * 2 ^ Z.of_nat f).
    { rewrite Nat2Z.inj_succ. rewrite Z.pow_succ_r by lia. reflexivity. }
    assert (Hq : 0 <= n / 10 < 2 ^ Z.of_nat f).
    { split; [apply Z.div_pos; lia |].
      apply Z.div_lt_upper_bound; lia. }
    assert (Hf' : (0 < f)%nat).
    { destruct f; [| lia]. simpl in Hn. lia. }
    destruct (IH (n / 10) (digit_char (n mod 10) :: acc) Hq Hf')
      as (ds & Heq & Hne & Hall & Hparse).
    exists (ds ++ [digit_char (n mod 10)]). repeat split.
    + rewrite Heq. rewrite <- app_assoc. reflexivity.
    + destruct ds; discriminate.
    + apply Forall_app. split; [exact Hall |].
      constructor; [| constructor]. unfold is_digit. rewrite Hd. reflexivity.
    + intros a b tl. rewrite <- app_assoc. rewrite Hparse.
      cbn [app parse_digits]. rewrite Hd. f_equal. rewrite length_app.
      cbn [List.length]. rewrite Nat2Z.inj_add. rewrite Z.pow_add_r by lia.
      change (Z.of_nat 1) with 1. rewrite Z.pow_1_r.
      pose proof (Z.div_mod n 10 ltac:(lia)). lia.
Qed.

Lemma digits_spec (n : Z) : 0 <= n ->
  digits n <> [] /\ Forall (fun c => is_digit c = true) (digits n)
  /\ parse_digits (digits n) 0 false = Some n.
Proof.
  intros Hn. unfold digits.
  destruct (digits_go_spec (S (Z.to_nat (Z.log2 n))) n [])
    as (ds & Heq & Hne & Hall & Hparse).
  - split; [exact Hn |]. rewrite Nat2Z.inj_succ.
    rewrite Z2Nat.id by apply Z.log2_nonneg.
    destruct (Z.eq_dec n 0) as [-> | Hz]; [reflexivity |].
    apply Z.log2_spec. lia.
  - lia.
  - rewrite app_nil_r in Heq. rewrite Heq. repeat split; auto.
    specialize (Hparse 0 false []). rewrite app_nil_r in Hparse.
    rewrite Hparse. simpl. reflexivity.
Qed.

Lemma is_digit_range (c : ascii) :
  is_digit c = true -> (48 <= N_of_ascii c <= 57)%N.
Proof.
  unfold is_digit, digit_val.
  destruct ((48 <=? N_of_ascii c)%N && (N_of_ascii c <=? 57)%N) eqn:E; [| discriminate].
  apply andb_true_iff in E. destruct E as [E1 E2].
  apply N.leb_le in E1. apply N.leb_le in E2. auto.
Qed.

Lemma digit_not_space (c : ascii) : is_digit c = true -> is_space c = false.
Proof.
  intros H. apply is_digit_range in H. unfold is_space.
  destruct (N.leb_spec (N_of_ascii c) 13); [lia |].
  destruct (N.leb_spec (N_of_ascii c) 32); [lia |].
  destruct (N.eqb_spec (N_of_ascii c) 133); [lia |].
  destruct (N.eqb_spec (N_of_ascii c) 160); [lia |].
  rewrite !andb_false_r. reflexivity.
Qed.

Lemma digit_not_char (c x : ascii) :
  is_digit c = true -> is_digit x = false -> Ascii.eqb c x = false.
Proof.
  intros Hc Hx. destruct (Ascii.eqb c x) eqn:E; [| reflexivity].
  apply Ascii.eqb_eq in E. subst. congruence.
Qed.

Lemma lstrip_digit (c : ascii) (r : str) : is_digit c = true -> lstrip (c :: r) = c :: r.
Proof. intros H. simpl. rewrite (digit_not_space _ H). reflexivity. Qed.

Lemma strip_digits (ds : str) :
  ds <> [] -> Forall (fun c => is_digit c = true) ds -> strip ds = ds.
Proof.
  intros Hne Hall. unfold strip.
  destruct ds as [| c r]; [congruence |].
  rewrite lstrip_digit by (inversion Hall; assumption).
  assert (Hrev : Forall (fun c => is_digit c = true) (rev (c :: r)))
    by (apply Forall_rev; exact Hall).
  destruct (rev (c :: r)) as [| x l] eqn:E.
  - apply (f_equal (@List.length ascii)) in E. rewrite length_rev in E. discriminate.
  - rewrite lstrip_digit by (inversion Hrev; assumption).
    rewrite <- E. apply rev_involutive.
Qed.

(** Reading back a printed step number. *)
Lemma int_str_of_int (n : Z) : 0 <= n -> int (str_of_int n) = inr n.
Proof.
  intros Hn. unfold str_of_int.
  destruct (Z.ltb_spec n 0); [lia |].
  destruct (digits_spec n Hn) as (Hne & Hall & Hparse).
  unfold int. rewrite strip_digits by assumption.
  destruct (digits n) as [| c r] eqn:E; [congruence |].
  assert (Hc : is_digit c = true) by (inversion Hall; assumption).
  rewrite (digit_not_char c "-" Hc eq_refl), (digit_not_char c "+" Hc eq_refl).
  rewrite Hparse. reflexivity.
Qed.

Lemma digits_free_of (x : ascii) (n : Z) :
  0 <= n -> is_digit x = false -> ~ In x (str_of_int n).
Proof.
  intros Hn Hx Hin. unfold str_of_int in Hin.
  destruct (Z.ltb_spec n 0); [lia |].
  destruct (digits_spec n Hn) as (_ & Hall & _).
  rewrite Forall_forall in Hall. specialize (Hall _ Hin). congruence.
Qed.

(** ** Paths *)

Lemma RESULTS_tail (env : Env) : exists pre, RESULTS env = pre ++ lit "GAN".
Proof.
  unfold RESULTS, path_join. cbn [fold_left].
  generalize (join2 (cwd env) (lit "results")) as x. intros x.
  unfold join2. cbn [startswith lit list_ascii_of_string Ascii.eqb Bool.eqb andb].
  destruct x as [| c x]; [exists []; reflexivity |].
  destruct (endswith _ (c :: x)).
  - eexists. reflexivity.
  - exists ((c :: x) ++ ["/"%char]). rewrite <- app_assoc. reflexivity.
Qed.

Lemma RESULTS_join (env : Env) (name : str) :
  startswith (lit "/") name = false ->
  path_join (RESULTS env) [name] = RESULTS env ++ lit "/" ++ name.
Proof.
  intros Hname. destruct (RESULTS_tail env) as [pre E].
  unfold path_join. cbn [fold_left]. unfold join2. rewrite Hname. rewrite E.
  assert (Hend : endswith (lit "/") (pre ++ lit "GAN") = false).
  { unfold endswith. rewrite rev_app_distr. reflexivity. }
  rewrite Hend. destruct (pre ++ lit "GAN") eqn:E'; [| reflexivity].
  apply app_eq_nil in E'. destruct E' as [_ E']. discriminate.
Qed.

Lemma snapshot_path_eq (env : Env) (n : Z) :
  snapshot_path env n
  = RESULTS env ++ lit "/" ++ lit "fake_images_step_" ++ str_of_int n ++ lit ".png".
Proof.
  unfold snapshot_path. rewrite RESULTS_join by reflexivity. reflexivity.
Qed.

Lemma animation_path_eq (env : Env) :
  animation_path env = RESULTS env ++ lit "/" ++ lit "replay_fake_images_gan.gif".
Proof. unfold animation_path. apply RESULTS_join. reflexivity. Qed.

(** The sort key of a snapshot is the step it was written at. *)
Lemma step_of_snapshot (env : Env) (n : Z) :
  0 <= n -> step_of_path (snapshot_path env n) = inr n.
Proof.
  intros Hn. rewrite snapshot_path_eq. unfold step_of_path.
  replace (RESULTS env ++ lit "/" ++ lit "fake_images_step_" ++ str_of_int n ++ lit ".png")
    with ((RESULTS env ++ lit "/fake_images_step")
          ++ "_"%char :: (str_of_int n ++ lit ".png"))
    by (rewrite <- app_assoc; reflexivity).
  change (lit "_") with ["_"%char].
  rewrite split_char_last.
  - replace (str_of_int n ++ lit ".png")
      with (str_of_int n ++ ("."%char :: lit "png") ++ [])
      by (rewrite app_nil_r; reflexivity).
    change (lit ".png") with ("."%char :: lit "png").
    rewrite split_first by (apply digits_free_of; [exact Hn | reflexivity]).
    apply int_str_of_int. exact Hn.
  - intros Hin. apply in_app_or in Hin. destruct Hin as [Hin | Hin].
    + revert Hin. apply digits_free_of; [exact Hn | reflexivity].
    + simpl in Hin. intuition discriminate.
Qed.

Lemma snapshot_path_inj (env : Env) (n m : Z) :
  0 <= n -> 0 <= m -> snapshot_path env n = snapshot_path env m -> n = m.
Proof.
  intros Hn Hm E. apply (f_equal step_of_path) in E.
  rewrite !step_of_snapshot in E by assumption. congruence.
Qed.

(** ** Sorting by key *)

Section SortByKey.

Context {A : Type}.

Let key_le (a b : Z * A) : Prop := fst a <= fst b.

Lemma insert_by_key_perm (x : Z * A) (l : list (Z * A)) :
  Permutation (insert_by_key x l) (x :: l).
Proof.
  induction l as [| y l IH]; simpl; [reflexivity |].
  destruct (fst x <=? fst y); [reflexivity |].
  rewrite IH. apply perm_swap.
Qed.

Lemma sort_by_key_perm (l : list (Z * A)) : Permutation (sort_by_key l) l.
Proof.
  induction l as [| x l IH]; simpl; [reflexivity |].
  rewrite insert_by_key_perm. constructor. exact IH.
Qed.

Lemma insert_by_key_sorted (x : Z * A) (l : list (Z * A)) :
  Sorted key_le l -> Sorted key_le (insert_by_key x l).
Proof.
  induction 1 as [| y l Hs IH Hhd]; simpl.
  - repeat constructor.
  - destruct (Z.leb_spec (fst x) (fst y)) as [Hle | Hgt].
    + constructor; [constructor; assumption | constructor; exact Hle].
    + constructor; [exact IH |].
      destruct Hhd as [| z l' Hyz]; simpl.
      * constructor. unfold key_le. lia.
      * destruct (fst x <=? fst z); constructor; unfold key_le in *; lia.
Qed.

Lemma sort_by_key_sorted (l : list (Z * A)) : Sorted key_le (sort_by_key l).
Proof.
  induction l as [| x l IH]; simpl; [constructor |].
  apply insert_by_key_sorted. exact IH.
Qed.

Lemma keyed_spec (key : A -> Exn + Z) (l : list A) (kl : list (Z * A)) :
  keyed key l = inr kl ->
  map snd kl = l /\ Forall (fun kv => key (snd kv) = inr (fst kv)) kl.
Proof.
  revert kl. induction l as [| x l IH]; simpl; intros kl H.
  - injection H as <-. split; constructor.
  - destruct (key x) as [e | k] eqn:Ek; [discriminate |].
    destruct (keyed key l) as [e | r]; [discriminate |].
    injection H as <-. destruct (IH r eq_refl) as [Hm Hf].
    simpl. split; [f_equal; exact Hm | constructor; assumption].
Qed.

Lemma keyed_total (key : A -> Exn + Z) (l : list A) :
  Forall (fun x => exists k, key x = inr k) l -> exists kl, keyed key l = inr kl.
Proof.
  induction 1 as [| x l [k Hk] _ [kl IH]]; simpl; [eauto |].
  rewrite Hk, IH. eauto.
Qed.

(** [sorted] returns a permutation of its input whose keys do not
    decrease. *)
Lemma sorted_spec (key : A -> Exn + Z) (l out : list A) :
  sorted key l = inr out ->
  Permutation out l
  /\ exists ks, Forall2 (fun k x => key x = inr k) ks out /\ Sorted Z.le ks.
Proof.
  unfold sorted. destruct (keyed key l) as [e | kl] eqn:Ek; [discriminate |].
  intros H. injection H as <-.
  destruct (keyed_spec key l kl Ek) as [Hm Hf]. split.
  - rewrite <- Hm. apply Permutation_map. apply sort_by_key_perm.
  - exists (map fst (sort_by_key kl)). split.
    + assert (Hf' : Forall (fun kv => key (snd kv) = inr (fst kv)) (sort_by_key kl)).
      { rewrite Forall_forall in *. intros kv Hin. apply Hf.
        eapply Permutation_in; [apply sort_by_key_perm | exact Hin]. }
      induction Hf' as [| kv r Hkv _ IH]; simpl; constructor; assumption.
    + pose proof (sort_by_key_sorted kl) as Hs.
      induction Hs as [| kv r _ IH Hhd]; simpl; constructor; [exact IH |].
      destruct Hhd; simpl; constructor. assumption.
Qed.

End SortByKey.

(** ** The animation *)

Lemma run_Listing_ok {A} (env : Env) pat (k : list str -> Prog A) h t a :
  run env (Listing pat k) h = (t, inr a) ->
  exists t', t = Returned (Glob pat) :: t'
    /\ run env (k (glob pat (files_after env h))) (Returned (Glob pat) :: h) = (t', inr a).
Proof.
  simpl. destruct (outcome env h (Glob pat)); [discriminate |].
  destruct (run env (k (glob pat (files_after env h))) (Returned (Glob pat) :: h))
    as [t' r]. intros H. injection H as <- <-. eauto.
Qed.

Lemma run_Ret {A} (env : Env) (a b : A) h t :
  run env (Ret a) h = (t, inr b) -> t = [] /\ a = b.
Proof. simpl. intros H. injection H as <- <-. auto. Qed.

Lemma run_frames (env : Env) (xs acc : list str) h t ims :
  run env (for_each xs
             (fun i ims => call (Imread i) ;; call (Imshow i) ;; Ret (ims ++ [i]))%prog
             acc) h = (t, inr ims) ->
  ims = acc ++ xs /\ calls t = flat_map (fun i => [Imread i; Imshow i]) xs.
Proof.
  revert acc h t. induction xs as [| x xs IH]; intros acc h t H.
  - apply run_Ret in H. destruct H as [-> ->]. rewrite app_nil_r. auto.
  - cbn [for_each bind call] in H.
    apply run_Do_ok in H. destruct H as (t1 & -> & H).
    apply run_Do_ok in H. destruct H as (t2 & -> & H).
    apply IH in H. destruct H as [-> Hc].
    rewrite <- app_assoc. split; [reflexivity |].
    simpl. rewrite Hc. reflexivity.
Qed.

(** A run of [show_animation_fake_images] that returns: the frames are
    the listed files sorted by key, each is read in that order, and the
    animation is then built and saved. *)
Lemma show_animation_ok (env : Env) h t :
  run env (show_animation_fake_images env) h = (t, inr tt) ->
  exists frames reads,
    sorted step_of_path
      (glob (RESULTS env ++ lit "/fake_*.png") (files_after env h))
    = inr frames
    /\ calls reads = flat_map (fun i => [Imread i; Imshow i]) frames
    /\ t = [Returned (Figure 8 8); Returned (Axis (lit "off"));
            Returned (Glob (RESULTS env ++ lit "/fake_*.png"))]
           ++ reads
           ++ [Returned (NewArtistAnimation frames 500 1000 true);
               Returned NewPillowWriter;
               Returned (AniSave (animation_path env));
               Returned Show].
Proof.
  unfold show_animation_fake_images. intros H.
  cbn [bind call] in H.
  apply run_Do_ok in H. destruct H as (t1 & -> & H).
  apply run_Do_ok in H. destruct H as (t2 & -> & H).
  apply run_Listing_ok in H. destruct H as (t3 & -> & H).
  change (files_after env (Returned (Axis (lit "off")) :: Returned (Figure 8 8) :: h))
    with (files_after env h) in H.
  destruct (sorted step_of_path _) as [e | frames] eqn:Es; [discriminate |].
  cbn [lift bind] in H.
  apply run_bind_ok in H. destruct H as (reads & ims & t4 & Hl & H & ->).
  apply run_frames in Hl. destruct Hl as [-> Hreads].
  cbn [app bind call] in H.
  apply run_Do_ok in H. destruct H as (t5 & -> & H).
  apply run_Do_ok in H. destruct H as (t6 & -> & H).
  apply run_Do_ok in H. destruct H as (t7 & -> & H).
  apply run_Do_ok in H. destruct H as (t8 & -> & H).
  apply run_Ret in H. destruct H as [-> _].
  exists frames, reads. repeat split; auto.
Qed.

Lemma keys_of_snapshots (env : Env) (ks ordered : list Z) :
  Forall (fun n => 0 <= n) ordered ->
  Forall2 (fun k x => step_of_path x = inr k) ks (map (snapshot_path env) ordered) ->
  ks = ordered.
Proof.
  intros Hpos. revert ks. induction Hpos as [| n l Hn _ IH]; intros ks H.
  - inversion H. reflexivity.
  - simpl in H. inversion H as [| k x ks' l' Hk Hrest]; subst.
    rewrite step_of_snapshot in Hk by exact Hn. injection Hk as ->.
    f_equal. apply IH. exact Hrest.
Qed.

Lemma sorted_snapshots (env : Env) (steps : list Z) (frames : list str) :
  Forall (fun n => 0 <= n) steps ->
  sorted step_of_path (map (snapshot_path env) steps) = inr frames ->
  exists ordered,
    frames = map (snapshot_path env) ordered
    /\ Permutation ordered steps /\ Sorted Z.le ordered.
Proof.
  intros Hpos Hs. apply sorted_spec in Hs. destruct Hs as (Hperm & ks & Hkeys & Hsorted).
  apply Permutation_map_inv in Hperm. destruct Hperm as (ordered & -> & Hperm).
  assert (Hpos' : Forall (fun n => 0 <= n) ordered).
  { rewrite Forall_forall in *. intros n Hin. apply Hpos.
    eapply Permutation_in; [symmetry; exact Hperm | exact Hin]. }
  rewrite (keys_of_snapshots env ks ordered Hpos' Hkeys) in Hsorted.
  exists ordered. repeat split; [symmetry; exact Hperm | exact Hsorted].
Qed.

Example frame_500_before_frame_1000 (env : Env) :
  sorted step_of_path [snapshot_path env 1000; snapshot_path env 500]
  = inr [snapshot_path env 500; snapshot_path env 1000].
Proof.
  unfold sorted. cbn [keyed]. rewrite !step_of_snapshot by lia. reflexivity.
Qed.

(** C10: [show_animation_fake_images] orders the frames by the step
    number read from each snapshot's name, as an integer: when the files
    found are the snapshots of the steps [steps], the frames handed to the
    animation, and the order in which the files are read, are the
    snapshots of a rearrangement of [steps] that never decreases. *)
Theorem animation_frames_in_step_order
    (env : Env) (h t : list Event) (steps : list Z) :
  Forall (fun n => 0 <= n) steps ->
  glob (RESULTS env ++ lit "/fake_*.png") (files_after env h)
    = map (snapshot_path env) steps ->
  run env (show_animation_fake_images env) h = (t, inr tt) ->
  exists ordered reads,
    Permutation ordered steps /\ Sorted Z.le ordered
    /\ calls reads
       = flat_map (fun i => [Imread i; Imshow i]) (map (snapshot_path env) ordered)
    /\ t = [Returned (Figure 8 8); Returned (Axis (lit "off"));
            Returned (Glob (RESULTS env ++ lit "/fake_*.png"))]
           ++ reads
           ++ [Returned (NewArtistAnimation (map (snapshot_path env) ordered)
                                            500 1000 true);
               Returned NewPillowWriter;
               Returned (AniSave (animation_path env));
               Returned Show].
Proof.
  intros Hpos Hglob Hrun.
  apply show_animation_ok in Hrun. destruct Hrun as (frames & reads & Hs & Hreads & Ht).
  rewrite Hglob in Hs.
  destruct (sorted_snapshots env steps frames Hpos Hs) as (ordered & -> & Hperm & Hsorted).
  exists ordered, reads. auto.
Qed.

Lemma animation_frames_in_step_order_witness :
  let env := quiet_env [lit "/w/results/GAN/fake_images_step_1000.png";
                        lit "/w/results/GAN/fake_images_step_500.png"] 0 in
  exists ordered reads,
    Permutation ordered [1000; 500] /\ Sorted Z.le ordered
    /\ calls reads
       = flat_map (fun i => [Imread i; Imshow i]) (map (snapshot_path env) ordered)
    /\ fst (run env (show_animation_fake_images env) [])
       = [Returned (Figure 8 8); Returned (Axis (lit "off"));
          Returned (Glob (RESULTS env ++ lit "/fake_*.png"))]
         ++ reads
         ++ [Returned (NewArtistAnimation (map (snapshot_path env) ordered)
                                          500 1000 true);
             Returned NewPillowWriter;
             Returned (AniSave (animation_path env));
             Returned Show].
Proof.
  intros env.
  apply (animation_frames_in_step_order env [] _ [1000; 500]).
  - repeat constructor; lia.
  - vm_compute. reflexivity.
  - vm_compute. reflexivity.
Defined.

(** ** The calls of the training loop and of [main] *)

Lemma sound_bind {A B} (P : Call -> Prop) (m : Prog A) (f : A -> Prog B) :
  safe P (fun _ => True) m -> (forall a, safe P (fun _ => True) (f a)) ->
  safe P (fun _ => True) (bind m f).
Proof. intros Hm Hf. apply safe_bind with (R := fun _ => True); auto. Qed.

Lemma sound_for_each {A S} (P : Call -> Prop) (xs : list A) (body : A -> S -> Prog S) :
  (forall x s, safe P (fun _ => True) (body x s)) ->
  forall s, safe P (fun _ => True) (for_each xs body s).
Proof. intros Hb s. apply safe_for_each; auto. Qed.

Lemma train_batch_calls (env : Env) gen disc gen_opt disc_opt criterion display_step real0 st :
  safe (training_call env) (fun _ => True)
       (train_batch env gen disc gen_opt disc_opt criterion display_step real0 st).
Proof.
  unfold train_batch, true_div, py_mod.
  destruct (display_step =? 0);
    cbn [bind call tensor forward py_len get_disc_loss get_gen_loss get_noise safe
         training_call];
    [tauto |].
  destruct ((cur_step st mod display_step =? 0) && (0 <? cur_step st));
    cbn [bind call tensor forward get_noise store_tensor_images safe training_call];
    repeat split.
  exists (cur_step st). reflexivity.
Qed.

Lemma training_loop_calls (env : Env) gen disc gen_opt disc_opt criterion dataloader
    n_epochs display_step :
  safe (training_call env) (fun _ => True)
       (training_loop env gen disc gen_opt disc_opt criterion dataloader
                      n_epochs display_step).
Proof.
  unfold training_loop. apply sound_bind; [| intros; exact I].
  apply sound_for_each. intros epoch st. unfold for_batches.
  cbn [bind call safe training_call]. split; [exact I |].
  apply sound_bind; [| intros; cbn; auto].
  apply sound_for_each. intros real s. cbn [bind call safe training_call].
  split; [exact I |]. apply train_batch_calls.
Qed.

Lemma training_loop_listing_free (env : Env) gen disc gen_opt disc_opt criterion
    dataloader n_epochs display_step :
  listing_free (training_loop env gen disc gen_opt disc_opt criterion dataloader
                              n_epochs display_step).
Proof.
  unfold listing_free. eapply safe_weaken; [| | apply training_loop_calls]; [| auto].
  intros c. destruct c; simpl; tauto.
Qed.

(** ** The two networks *)

(** C3: the analog layers stand in for dense layers in the generator
    only.  Whenever the two constructors return, the generator is four
    blocks and an output layer whose linear transformations are all
    [AnalogLinear], and the discriminator is three blocks and an output
    layer whose linear transformations are all [nn.Linear]. *)
Theorem analog_layers_only_in_generator
    (env : Env) (h1 h2 t1 t2 : list Event) (z_dim im_dim hidden_dim : Z) (g d : Net) :
  run env (Generator z_dim im_dim hidden_dim) h1 = (t1, inr g) ->
  run env (Discriminator im_dim hidden_dim) h2 = (t2, inr d) ->
  let gblock i o :=
    AnalogSequential [AnalogLinear i o true RPU_CONFIG; BatchNorm1d o; ReLU true] in
  let dblock i o :=
    Sequential [Linear i o; LeakyReLU {| mantissa := 2; exponent10 := -1 |} true] in
  g = GeneratorNet
        (AnalogSequential
           [gblock z_dim hidden_dim;
            gblock hidden_dim (hidden_dim * 2);
            gblock (hidden_dim * 2) (hidden_dim * 4);
            gblock (hidden_dim * 4) (hidden_dim * 8);
            AnalogLinear (hidden_dim * 8) im_dim true RPU_CONFIG;
            Sigmoid])
  /\ d = DiscriminatorNet
           (Sequential
              [dblock im_dim (hidden_dim * 4);
               dblock (hidden_dim * 4) (hidden_dim * 2);
               dblock (hidden_dim * 2) hidden_dim;
               Linear hidden_dim 1])
  /\ List.length (linears (net_module g)) = 5%nat
  /\ Forall (fun l => is_analog l = true) (linears (net_module g))
  /\ List.length (linears (net_module d)) = 4%nat
  /\ Forall (fun l => is_standard_dense l = true) (linears (net_module d)).
Proof.
  intros Hg Hd gblock dblock.
  apply run_dry in Hg; [| cbn; tauto]. destruct Hg as [_ Hg].
  specialize (Hg g eq_refl). cbn in Hg. injection Hg as _ <-.
  apply run_dry in Hd; [| cbn; tauto]. destruct Hd as [_ Hd].
  specialize (Hd d eq_refl). cbn in Hd. injection Hd as _ <-.
  cbn. repeat split; repeat constructor.
Qed.

Lemma analog_layers_only_in_generator_witness :
  let env := quiet_env [] 0 in
  let dblock i o :=
    Sequential [Linear i o; LeakyReLU {| mantissa := 2; exponent10 := -1 |} true] in
  let g := GeneratorNet
    (AnalogSequential
       [AnalogSequential [AnalogLinear 64 128 true RPU_CONFIG; BatchNorm1d 128; ReLU true];
        AnalogSequential [AnalogLinear 128 256 true RPU_CONFIG; BatchNorm1d 256; ReLU true];
        AnalogSequential [AnalogLinear 256 512 true RPU_CONFIG; BatchNorm1d 512; ReLU true];
        AnalogSequential [AnalogLinear 512 1024 true RPU_CONFIG; BatchNorm1d 1024; ReLU true];
        AnalogLinear 1024 784 true RPU_CONFIG;
        Sigmoid]) in
  let d := DiscriminatorNet
    (Sequential [dblock 784 512; dblock 512 256; dblock 256 128; Linear 128 1]) in
  Forall (fun l => is_analog l = true) (linears (net_module g))
  /\ Forall (fun l => is_standard_dense l = true) (linears (net_module d)).
Proof.
  intros env dblock g d.
  pose proof (analog_layers_only_in_generator env [] []
                (fst (run env (Generator 64 784 128) []))
                (fst (run env (Discriminator 784 128) []))
                64 784 128 g d eq_refl eq_refl) as H.
  exact (conj (proj1 (proj2 (proj2 (proj2 H))))
              (proj2 (proj2 (proj2 (proj2 (proj2 H)))))).
Defined.

(** ** Noise *)

(** C7: for positive [n_samples] and [z_dim], [get_noise] makes exactly
    the calls [torch.randn(n_samples, z_dim)] and [.to(device)] and returns
    their result, a tensor of shape [(n_samples, z_dim)] on [device] whose
    entries are what [torch.randn] draws; and every noise tensor asked for
    in the training loop has second dimension [Z_DIM = 64]. *)
Theorem get_noise_shape (n_samples z_dim : Z) (device : Device) :
  0 < n_samples -> 0 < z_dim ->
  let noise := To (Randn n_samples z_dim) device in
  dry (get_noise n_samples z_dim device)
    = ([Compute (Randn n_samples z_dim); Compute noise], inr noise)
  /\ shape_of noise = [n_samples; z_dim]
  /\ device_of noise = device
  /\ (forall env h t x,
        run env (get_noise n_samples z_dim device) h = (t, inr x) -> x = noise)
  /\ Z_DIM = 64
  /\ (forall env gen disc gen_opt disc_opt criterion dataloader n_epochs display_step
             h t r n z,
        run env (training_loop env gen disc gen_opt disc_opt criterion dataloader
                               n_epochs display_step) h = (t, r) ->
        In (Compute (Randn n z)) (calls t) -> z = Z_DIM).
Proof.
  intros Hn Hz noise.
  assert (Hdry : dry (get_noise n_samples z_dim device)
                 = ([Compute (Randn n_samples z_dim); Compute noise], inr noise)).
  { unfold get_noise. cbn [bind tensor dry lib_error].
    destruct (Z.ltb_spec n_samples 0); [lia |].
    destruct (Z.ltb_spec z_dim 0); [lia |]. reflexivity. }
  repeat split; [exact Hdry | |].
  - intros env h t x Hrun.
    apply run_dry in Hrun; [| cbn; tauto]. destruct Hrun as [_ Hrun].
    specialize (Hrun x eq_refl). rewrite Hdry in Hrun. injection Hrun as _ <-.
    reflexivity.
  - intros env gen disc gen_opt disc_opt criterion dataloader n_epochs display_step
           h t r n z Hrun Hin.
    destruct (safe_run env _ _ _ h t r
                (training_loop_calls env gen disc gen_opt disc_opt criterion
                                     dataloader n_epochs display_step) Hrun)
      as [Hall _].
    rewrite Forall_forall in Hall. exact (Hall _ Hin).
Qed.

Lemma get_noise_shape_witness :
  dry (get_noise 256 64 CPU)
    = ([Compute (Randn 256 64); Compute (To (Randn 256 64) CPU)],
       inr (To (Randn 256 64) CPU))
  /\ shape_of (To (Randn 256 64) CPU) = [256; 64].
Proof.
  pose proof (get_noise_shape 256 64 CPU ltac:(lia) ltac:(lia)) as H.
  exact (conj (proj1 H) (proj1 (proj2 H))).
Defined.

(** ** The argument vector *)

Section Agreement.

Variables e1 e2 : Env.
Hypothesis same_mnist_files : mnist_files e1 = mnist_files e2.
Hypothesis same_initial_files : initial_files e1 = initial_files e2.
Hypothesis same_raises : forall h c, raises e1 h c = raises e2 h c.

Lemma files_after_agree (h : list Event) : files_after e1 h = files_after e2 h.
Proof.
  destruct e1, e2. simpl in same_mnist_files, same_initial_files. subst.
  reflexivity.
Qed.

Lemma run_agree {A} (p : Prog A) (h : list Event) : run e1 p h = run e2 p h.
Proof.
  revert h. induction p as [a | e | c k IH | pat k IH]; intros h; simpl.
  - reflexivity.
  - reflexivity.
  - unfold outcome. rewrite same_raises, IH. reflexivity.
  - unfold outcome. rewrite same_raises, files_after_agree, IH. reflexivity.
Qed.

End Agreement.

(** C8: the program has no flags.  Two processes that differ at most in
    their argument vectors (same working directory, build of the
    simulator, dataset, files and library behaviour) run the same program,
    make the same calls with the same outcome, and leave the same files. *)
Theorem main_ignores_argv (e1 e2 : Env) :
  cwd e1 = cwd e2 ->
  cuda_compiled e1 = cuda_compiled e2 ->
  dataset_len e1 = dataset_len e2 ->
  mnist_files e1 = mnist_files e2 ->
  initial_files e1 = initial_files e2 ->
  (forall h c, raises e1 h c = raises e2 h c) ->
  main e1 = main e2
  /\ run e1 (main e1) [] = run e2 (main e2) []
  /\ files_after e1 (rev (fst (run e1 (main e1) [])))
     = files_after e2 (rev (fst (run e2 (main e2) []))).
Proof.
  intros Hcwd Hcuda Hlen Hm Hi Hr.
  assert (Hmain : main e1 = main e2).
  { unfold main, training_loop, train_batch, show_animation_fake_images,
      store_tensor_images, RESULTS, DEVICE, USE_CUDA.
    rewrite Hcwd, Hcuda, Hlen. reflexivity. }
  assert (Hrun : run e1 (main e1) [] = run e2 (main e2) []).
  { rewrite Hmain. apply run_agree; assumption. }
  split; [exact Hmain |]. split; [exact Hrun |].
  rewrite Hrun. apply files_after_agree; assumption.
Qed.

Lemma main_ignores_argv_witness :
  let e1 := with_argv [lit "--epochs"; lit "3"] (quiet_env [] 0) in
  let e2 := with_argv [] (quiet_env [] 0) in
  run e1 (main e1) [] = run e2 (main e2) [].
Proof.
  intros e1 e2.
  exact (proj1 (proj2 (main_ignores_argv e1 e2 eq_refl eq_refl eq_refl eq_refl eq_refl
                                         (fun _ _ => eq_refl)))).
Defined.

(** ** Failures *)



(** ** Storing a grid of images *)

Lemma view_as_images (n b : Z) :
  n = 784 * b -> infer_size n [-1; 1; 28; 28] = inr [b; 1; 28; 28].
Proof.
  intros ->. unfold infer_size.
  change (scan_dims [-1; 1; 28; 28] 1 false) with (@inr Exn _ (784, true)).
  cbv beta iota.
  replace ((784 * b) mod 784) with 0 by (rewrite Z.mul_comm, Z_mod_mult; reflexivity).
  replace ((784 * b) / 784) with b by (rewrite Z.mul_comm, Z.div_mul; lia).
  rewrite orb_true_r. reflexivity.
Qed.

Lemma grid_of_images (k : Z) :
  1 <= k ->
  grid_shape [k; 1; 28; 28] 5
  = inr (if k =? 1 then [3; 28; 28]
         else [3; 30 * grid_rows k 5 + 2; 30 * Z.min 5 k + 2]).
Proof.
  intros Hk. unfold grid_shape.
  change (grid_batch [k; 1; 28; 28]) with [k; 3; 28; 28]. cbv beta iota.
  destruct (k =? 1); [reflexivity |].
  unfold grid_columns. destruct (Z.eqb_spec (Z.min 5 k) 0); [lia | reflexivity].
Qed.

(** C9: [store_tensor_images] on a tensor of images.  For a tensor that
    holds [b >= 1] images of 784 values, whatever [b] is, no call fails on
    account of its arguments: the tensor is viewed as [b] images of shape
    [(1, 28, 28)], the first [min b 25] of them are kept, they are laid out
    [min 5 b] to a row in rows that hold them all, and the grid is saved
    under the results directory. *)
Theorem store_tensor_images_grid
    (env : Env) (image_tensor : Tensor) (label : str) (current_step b : Z) :
  1 <= b ->
  numel (shape_of image_tensor) = 784 * b ->
  let image_unflat := View (Cpu (Detach image_tensor)) [-1; 1; 28; 28] in
  let shown := UpTo image_unflat 25 in
  let image_grid := MakeGrid shown 5 in
  let path := path_join (RESULTS env)
                [label ++ lit "_step_" ++ str_of_int current_step ++ lit ".png"] in
  let made := [Compute (Detach image_tensor); Compute (Cpu (Detach image_tensor));
               Compute image_unflat; Compute shown; Compute image_grid;
               SaveImage image_grid path] in
  dry (store_tensor_images env image_tensor label current_step
                           default_num_images default_size)
    = (made, inr tt)
  /\ (forall h t, run env (store_tensor_images env image_tensor label current_step
                                               default_num_images default_size) h
                  = (t, inr tt) -> calls t = made)
  /\ shape_of image_unflat = [b; 1; 28; 28]
  /\ shape_of shown = [Z.min b 25; 1; 28; 28]
  /\ 1 <= Z.min b 25 <= 25
  /\ grid_columns (Z.min b 25) 5 = Z.min 5 b
  /\ Z.min b 25 <= grid_rows (Z.min b 25) 5 * grid_columns (Z.min b 25) 5.
Proof.
  intros Hb Hnumel image_unflat shown image_grid path made.
  assert (Hview : infer_size (numel (shape_of (Cpu (Detach image_tensor)))) [-1; 1; 28; 28]
                  = inr [b; 1; 28; 28]).
  { cbn [shape_of]. apply view_as_images. exact Hnumel. }
  assert (Hunflat : shape_of image_unflat = [b; 1; 28; 28]).
  { unfold image_unflat. cbn [shape_of] in *. rewrite Hview. reflexivity. }
  assert (Hshown : shape_of shown = [Z.min b 25; 1; 28; 28]).
  { unfold shown. cbn [shape_of]. fold image_unflat. rewrite Hunflat. reflexivity. }
  assert (Hgrid : grid_shape (shape_of shown) 5
                  = inr (if Z.min b 25 =? 1 then [3; 28; 28]
                         else [3; 30 * grid_rows (Z.min b 25) 5 + 2;
                               30 * Z.min 5 (Z.min b 25) + 2])).
  { rewrite Hshown. apply grid_of_images. lia. }
  assert (Hdry : dry (store_tensor_images env image_tensor label current_step
                                          default_num_images default_size)
                 = (made, inr tt)).
  { unfold store_tensor_images, default_num_images, default_size.
    cbn [bind tensor call dry lib_error].
    rewrite Hview. fold image_unflat. rewrite Hunflat. fold shown. rewrite Hgrid.
    reflexivity. }
  split; [exact Hdry |]. split.
  { intros h t Hrun. apply run_dry in Hrun; [| cbn; tauto].
    destruct Hrun as [_ Hrun]. specialize (Hrun tt eq_refl).
    rewrite Hdry in Hrun. injection Hrun as <-. reflexivity. }
  split; [exact Hunflat |]. split; [exact Hshown |]. split; [lia |].
  unfold grid_rows, grid_columns. split; [lia |].
  assert (Hc : 0 < Z.min 5 (Z.min b 25)) by lia.
  pose proof (Z.mul_div_le (- Z.min b 25) _ Hc). lia.
Qed.

(** The images the training loop hands to [store_tensor_images] are such
    a tensor: the generator of [main] turns [b] noise vectors into [b]
    images of 784 values. *)
Lemma fake_images_are_images (b : Z) (device : Device) :
  numel (shape_of (Apply main_generator (To (Randn b Z_DIM) device))) = 784 * b.
Proof.
  change (shape_of (Apply main_generator (To (Randn b Z_DIM) device)))
    with [b; 784].
  unfold numel. cbn [fold_right]. lia.
Qed.

Lemma main_generator_built (env : Env) (h t : list Event) (g : Net) :
  run env (Generator Z_DIM default_im_dim default_hidden_dim) h = (t, inr g) ->
  g = main_generator.
Proof.
  intros H. apply run_dry in H; [| cbn; tauto]. destruct H as [_ H].
  specialize (H g eq_refl). cbn in H. injection H as _ <-. reflexivity.
Qed.

Lemma store_tensor_images_grid_witness :
  let env := quiet_env [] 0 in
  let fake := Apply main_generator (To (Randn 256 Z_DIM) CPU) in
  shape_of (View (Cpu (Detach fake)) [-1; 1; 28; 28]) = [256; 1; 28; 28]
  /\ shape_of (UpTo (View (Cpu (Detach fake)) [-1; 1; 28; 28]) 25)
     = [Z.min 256 25; 1; 28; 28].
Proof.
  intros env fake.
  pose proof (store_tensor_images_grid env fake (lit "fake_images") 500 256
                ltac:(lia) eq_refl) as W.
  exact (conj (proj1 (proj2 (proj2 W))) (proj1 (proj2 (proj2 (proj2 W))))).
Defined.

(** Outside that domain the call of [view] fails: 200 values are not a
    whole number of images. *)
Example store_tensor_images_other_size :
  let env := quiet_env [] 0 in
  let t := Batch 0 0 [2; 100] in
  run env (store_tensor_images env t (lit "fake_images") 1
                               default_num_images default_size) []
  = ([Returned (Compute (Detach t));
      Returned (Compute (Cpu (Detach t)));
      Raised (Compute (View (Cpu (Detach t)) [-1; 1; 28; 28]))
             (RuntimeError "shape is invalid for input size")],
     inl (RuntimeError "shape is invalid for input size")).
Proof. reflexivity. Qed.

(** ** Where the script writes *)

Lemma show_animation_calls (env : Env) :
  safe (main_call env) (fun _ => True) (show_animation_fake_images env).
Proof.
  unfold show_animation_fake_images. cbn [bind call safe main_call].
  repeat match goal with
         | |- _ /\ _ => split; [first [reflexivity | exact I] |]
         end.
  intros l. destruct (sorted step_of_path l) as [e | frames]; cbn [lift bind safe];
    [exact I |].
  apply sound_bind.
  - apply sound_for_each. intros i ims. cbn. tauto.
  - intros ims. cbn. tauto.
Qed.

Lemma main_calls (env : Env) : safe (main_call env) (fun _ => True) (main env).
Proof.
  unfold main.
  cbn [bind call Generator get_generator_block Discriminator get_discriminator_block
       safe main_call].
  repeat match goal with
         | |- _ /\ _ => split; [first [reflexivity | exact I] |]
         end.
  apply sound_bind.
  - eapply safe_weaken; [| | apply training_loop_calls]; [| auto].
    intros c Hc. destruct c; simpl in *; tauto.
  - intros _. apply sound_bind.
    + apply show_animation_calls.
    + intros _. cbn. tauto.
Qed.

Lemma run_Do_head {A} (env : Env) (c : Call) (k : Prog A) h t r :
  run env (Do c k) h = (t, r) -> exists rest, calls t = c :: rest.
Proof.
  simpl. destruct (outcome env h c).
  - intros H. injection H as <- <-. exists []. reflexivity.
  - destruct (run env k (Returned c :: h)) as [t' r']. intros H.
    injection H as <- <-. exists (calls t'). reflexivity.
Qed.

Lemma RESULTS_under_cwd (env : Env) :
  cwd env <> [] -> endswith (lit "/") (cwd env) = false ->
  RESULTS env = cwd env ++ lit "/results/GAN".
Proof.
  intros Hne Hend. unfold RESULTS, path_join. cbn [fold_left].
  assert (H1 : join2 (cwd env) (lit "results") = cwd env ++ lit "/results").
  { unfold join2. change (startswith (lit "/") (lit "results")) with false.
    cbv iota. rewrite Hend. destruct (cwd env); [congruence | reflexivity]. }
  rewrite H1. unfold join2. change (startswith (lit "/") (lit "GAN")) with false.
  cbv iota.
  assert (H2 : endswith (lit "/") (cwd env ++ lit "/results") = false).
  { unfold endswith. rewrite rev_app_distr. reflexivity. }
  rewrite H2. destruct (cwd env ++ lit "/results") eqn:E.
  - apply app_eq_nil in E. destruct E. congruence.
  - rewrite <- E. rewrite <- app_assoc. reflexivity.
Qed.

Lemma in_add_file (p q : str) (fs : list str) :
  In p (add_file q fs) -> p = q \/ In p fs.
Proof.
  unfold add_file. destruct (existsb (str_eqb q) fs); simpl; intuition auto.
Qed.

Lemma startswith_dir (dir rest : str) : startswith (dir ++ lit "/") (dir ++ lit "/" ++ rest) = true.
Proof. rewrite app_assoc. apply startswith_app. Qed.

(** Files appear only under the results directory and the dataset path. *)
Lemma files_after_frame (env : Env) (h : list Event) :
  Forall (main_call env) (map call_of h) ->
  forall p, In p (files_after env h) ->
    In p (initial_files env)
    \/ startswith (RESULTS env ++ lit "/") p = true
    \/ startswith (PATH_DATASET ++ lit "/") p = true.
Proof.
  induction h as [| ev h IH]; intros Hall p Hin; [left; exact Hin |].
  inversion Hall as [| c l Hc Hrest]; subst.
  unfold files_after in Hin. cbn [fold_right] in Hin.
  fold (files_after env h) in Hin.
  destruct ev as [c | c e]; [| apply IH; assumption].
  destruct c; cbn [effect] in Hin; try (apply IH; assumption).
  - destruct download; [| apply IH; assumption].
    cbn [call_of main_call] in Hc. subst root.
    induction (mnist_files env) as [| f fs IHf]; [apply IH; assumption |].
    cbn [fold_right] in Hin. apply in_add_file in Hin.
    destruct Hin as [-> | Hin]; [| apply IHf; exact Hin].
    right. right. apply startswith_dir.
  - apply in_add_file in Hin. destruct Hin as [-> | Hin]; [| apply IH; assumption].
    cbn [call_of main_call training_call] in Hc. destruct Hc as [n ->].
    right. left. rewrite snapshot_path_eq. apply startswith_dir.
  - apply in_add_file in Hin. destruct Hin as [-> | Hin]; [| apply IH; assumption].
    cbn [call_of main_call] in Hc. subst path.
    right. left. rewrite animation_path_eq. apply startswith_dir.
Qed.

(** C6: every file the script writes lies in the results directory
    ([cwd/results/GAN], which [main] creates first) or under the dataset
    path [data/DATASET].  In any run of [main], whether it ends well or
    not: the first call creates the results directory, the dataset is
    stored at [data/DATASET], every image is saved as
    [fake_images_step_<N>.png] in the results directory and the animation
    as [replay_fake_images_gan.gif] there; and a file that exists
    afterwards either existed before or lies in one of the two places. *)
Theorem main_writes_only_results_and_dataset
    (env : Env) (t : list Event) (r : Exn + unit) :
  run env (main env) [] = (t, r) ->
  (exists rest, calls t = MakeDirs (RESULTS env) true :: rest)
  /\ Forall (fun c =>
              match c with
              | MakeDirs p _ => p = RESULTS env
              | NewMNIST root _ => root = lit "data/DATASET"
              | SaveImage _ p =>
                  exists n, p = RESULTS env ++ lit "/fake_images_step_"
                                ++ str_of_int n ++ lit ".png"
              | AniSave p => p = RESULTS env ++ lit "/replay_fake_images_gan.gif"
              | _ => True
              end) (calls t)
  /\ (cwd env <> [] -> endswith (lit "/") (cwd env) = false ->
      RESULTS env = cwd env ++ lit "/results/GAN")
  /\ forall p, In p (files_after env (rev t)) ->
       In p (initial_files env)
       \/ startswith (RESULTS env ++ lit "/") p = true
       \/ startswith (lit "data/DATASET/") p = true.
Proof.
  intros Hrun.
  destruct (safe_run env _ _ (main env) [] t r (main_calls env) Hrun) as [Hall _].
  split; [| split; [| split]].
  - unfold main in Hrun. cbn [bind call] in Hrun.
    eapply run_Do_head. exact Hrun.
  - eapply Forall_impl; [| exact Hall]. intros c Hc.
    destruct c; cbn [main_call training_call] in Hc; try exact I.
    + exact Hc.
    + exact Hc.
    + destruct Hc as [n ->]. exists n. rewrite snapshot_path_eq. reflexivity.
    + rewrite Hc. apply animation_path_eq.
  - apply RESULTS_under_cwd.
  - apply files_after_frame. rewrite map_rev. apply Forall_rev. exact Hall.
Qed.

Lemma main_writes_only_results_and_dataset_witness :
  let env := quiet_env [lit "/home/u/notes.txt"] 0 in
  let t := fst (run env (main env) []) in
  (exists rest, calls t = MakeDirs (lit "/w/results/GAN") true :: rest)
  /\ Forall (fun c =>
               match c with
               | MakeDirs p _ => p = RESULTS env
               | NewMNIST root _ => root = lit "data/DATASET"
               | SaveImage _ p =>
                   exists n, p = RESULTS env ++ lit "/fake_images_step_"
                                 ++ str_of_int n ++ lit ".png"
               | AniSave p => p = RESULTS env ++ lit "/replay_fake_images_gan.gif"
               | _ => True
               end) (calls t).
Proof.
  intros env t.
  assert (H : run env (main env) [] = (t, inr tt)) by (vm_compute; reflexivity).
  pose proof (main_writes_only_results_and_dataset env t (inr tt) H) as W.
  exact (conj (proj1 W) (proj1 (proj2 W))).
Defined.

(** ** The training loop, call by call *)

Ltac break_in H :=
  match type of H with
  | context [match ?x with _ => _ end] =>
      lazymatch x with
      | context [match _ with _ => _ end] => fail
      | _ => destruct x eqn:?
      end
  end.

Ltac dry_step H :=
  cbn [bind call tensor forward py_len get_disc_loss get_gen_loss get_noise
       store_tensor_images dry lib_error default_num_images default_size] in H.

(** One pass of the inner loop: up to the first failure it makes the
    calls expected of the batch, and it moves the step counter by one. *)
Lemma dry_train_batch (env : Env) gen disc gen_opt disc_opt criterion display_step
    real0 st t r :
  dry (train_batch env gen disc gen_opt disc_opt criterion display_step real0 st)
    = (t, r) ->
  agrees (expected_batch env gen disc gen_opt disc_opt criterion display_step
                         (cur_step st) real0) (t, r)
  /\ forall st', r = inr st' -> cur_step st' = cur_step st + 1.
Proof.
  unfold train_batch, true_div, py_mod, expected_batch, snapshot_due, agrees,
         update_round, snapshot_of, noise_for, snapshot_path.
  cbn [fst snd]. intros H. dry_step H.
  repeat (break_in H; dry_step H).
  all: injection H as <- <-.
  all: split;
    [split;
       [eexists; cbn [filter observed is_update is_save is_epoch orb app hd];
        reflexivity
       | intros a Ha; try discriminate Ha]
    | intros a Ha; try discriminate Ha].
  all: injection Ha as <-; reflexivity.
Qed.

Lemma agrees_nil {A} (a : A) : agrees [] ([], inr a).
Proof. split; [exists []; reflexivity | reflexivity]. Qed.

Lemma agrees_skip {A} (c : Call) (e t : list Call) (r : Exn + A) :
  observed c = false -> agrees e (t, r) -> agrees e (c :: t, r).
Proof. unfold agrees. cbn [fst snd filter]. intros ->. auto. Qed.

Lemma agrees_cons {A} (c : Call) (e t : list Call) (r : Exn + A) :
  observed c = true -> agrees e (t, r) -> agrees (c :: e) (c :: t, r).
Proof.
  unfold agrees. cbn [fst snd filter]. intros -> [[rest Hp] Hs]. split.
  - exists rest. rewrite Hp. reflexivity.
  - intros a Ha. rewrite (Hs a Ha). reflexivity.
Qed.

Lemma agrees_fail {A B} (e1 e2 t1 : list Call) (err : Exn) :
  agrees e1 (t1, @inl Exn A err) -> agrees (e1 ++ e2) (t1, @inl Exn B err).
Proof.
  unfold agrees. cbn [fst snd]. intros [[rest Hp] _]. split; [| discriminate].
  exists (rest ++ e2). rewrite Hp, app_assoc. reflexivity.
Qed.

Lemma agrees_seq {A B} (e1 e2 t1 t2 : list Call) (a : A) (r2 : Exn + B) :
  agrees e1 (t1, inr a) -> agrees e2 (t2, r2) -> agrees (e1 ++ e2) (t1 ++ t2, r2).
Proof.
  unfold agrees. cbn [fst snd]. intros [_ H1] [[rest Hp] H2].
  rewrite filter_app, (H1 a eq_refl). split.
  - exists rest. rewrite Hp, app_assoc. reflexivity.
  - intros b Hb. rewrite (H2 b Hb). reflexivity.
Qed.

Section Loop.

Variables (env : Env) (gen disc : Net) (gen_opt disc_opt : Optimizer).
Variables (criterion : Criterion) (display_step : Z).

Let body := train_batch env gen disc gen_opt disc_opt criterion display_step.
Let per_batch := expected_batches env gen disc gen_opt disc_opt criterion display_step.
Let per_epoch := expected_epochs env gen disc gen_opt disc_opt criterion display_step.

Lemma dry_batches (xs : list Tensor) : forall st t r,
  dry (for_each xs (fun real s => call LoaderNext ;; body real s)%prog st) = (t, r) ->
  agrees (per_batch (cur_step st) xs) (t, r)
  /\ forall st', r = inr st' -> cur_step st' = cur_step st + Z.of_nat (List.length xs).
Proof.
  induction xs as [| x xs IH]; intros st t r H.
  - cbn in H. injection H as <- <-. split; [apply agrees_nil |].
    intros st' E. injection E as <-. cbn. lia.
  - cbn [for_each] in H. rewrite dry_bind in H. cbn [bind call dry lib_error] in H.
    destruct (dry (body x st)) as [t1 [e | st1]] eqn:E1;
      apply dry_train_batch in E1; destruct E1 as [Ha Hs].
    + injection H as <- <-. split; [| discriminate].
      apply agrees_skip; [reflexivity |]. cbn [expected_batches].
      apply (agrees_fail (A := LoopState)). exact Ha.
    + destruct (dry (for_each xs _ st1)) as [t2 r2] eqn:E2.
      injection H as <- <-. apply IH in E2. destruct E2 as [Ha2 Hs2].
      rewrite (Hs st1 eq_refl) in Ha2, Hs2. split.
      * change ((LoaderNext :: t1) ++ t2) with (LoaderNext :: (t1 ++ t2)).
        apply agrees_skip; [reflexivity |]. cbn [expected_batches].
        eapply agrees_seq; eassumption.
      * intros st' E. rewrite (Hs2 st' E). cbn [List.length].
        rewrite Nat2Z.inj_succ. lia.
Qed.

Lemma dry_for_batches (dataloader : DataLoader) (epoch : nat) st t r :
  dry (for_batches dataloader epoch body st) = (t, r) ->
  agrees (LoaderIter epoch :: per_batch (cur_step st) (batches dataloader epoch)) (t, r)
  /\ forall st', r = inr st' ->
       cur_step st' = cur_step st + Z.of_nat (List.length (batches dataloader epoch)).
Proof.
  unfold for_batches. cbn [bind call]. cbn [dry lib_error]. rewrite dry_bind.
  destruct (dry (for_each (batches dataloader epoch) _ st)) as [t1 [e | st1]] eqn:E1;
    apply dry_batches in E1; destruct E1 as [Ha Hs]; intros H.
  - injection H as <- <-. split; [| discriminate].
    apply agrees_cons; [reflexivity |]. exact Ha.
  - cbn in H. injection H as <- <-. split.
    + apply agrees_cons; [reflexivity |].
      rewrite <- (app_nil_r (per_batch _ _)).
      eapply agrees_seq; [exact Ha |].
      apply agrees_skip; [reflexivity |]. apply agrees_nil.
    + intros st' E. injection E as <-. apply Hs. reflexivity.
Qed.

Lemma dry_epochs (dataloader : DataLoader) (epochs : list nat) : forall st t r,
  dry (for_each epochs (fun epoch st => for_batches dataloader epoch body st) st)
    = (t, r) ->
  agrees (per_epoch dataloader (cur_step st) epochs) (t, r).
Proof.
  unfold per_epoch.
  induction epochs as [| e epochs IH]; intros st t r H.
  - cbn in H. injection H as <- <-. apply agrees_nil.
  - cbn [for_each] in H. rewrite dry_bind in H.
    destruct (dry (for_batches dataloader e body st)) as [t1 [err | st1]] eqn:E1;
      apply dry_for_batches in E1; destruct E1 as [Ha Hs].
    + injection H as <- <-. cbn [expected_epochs].
      change (LoaderIter e :: ?a ++ ?b) with ((LoaderIter e :: a) ++ b).
      apply (agrees_fail (A := LoopState)). exact Ha.
    + destruct (dry (for_each epochs _ st1)) as [t2 r2] eqn:E2.
      injection H as <- <-. apply IH in E2.
      rewrite (Hs st1 eq_refl) in E2. cbn [expected_epochs].
      change (LoaderIter e :: ?a ++ ?b) with ((LoaderIter e :: a) ++ b).
      eapply agrees_seq; eassumption.
Qed.

Lemma dry_training_loop (dataloader : DataLoader) (n_epochs : Z) t r :
  dry (training_loop env gen disc gen_opt disc_opt criterion dataloader
                     n_epochs display_step) = (t, r) ->
  agrees (per_epoch dataloader 0 (seq 0 (Z.to_nat n_epochs))) (t, r).
Proof.
  unfold training_loop. rewrite dry_bind.
  destruct (dry (for_each (seq 0 (Z.to_nat n_epochs)) _ _)) as [t1 [e | st1]] eqn:E1;
    apply dry_epochs in E1; cbn [cur_step] in E1; intros H.
  - injection H as <- <-. destruct E1 as [Hp _]. split; [exact Hp | discriminate].
  - cbn in H. injection H as <- <-. rewrite app_nil_r.
    destruct E1 as [Hp Hs]. split; [exact Hp |]. intros a _. exact (Hs st1 eq_refl).
Qed.

(** What is observed of any run of the training loop. *)
Lemma training_loop_observed (dataloader : DataLoader) (n_epochs : Z) h t r :
  run env (training_loop env gen disc gen_opt disc_opt criterion dataloader
                         n_epochs display_step) h = (t, r) ->
  agrees (per_epoch dataloader 0 (seq 0 (Z.to_nat n_epochs))) (calls t, r).
Proof.
  intros H. apply run_dry in H; [| apply training_loop_listing_free].
  destruct H as [[rest Hp] Hs].
  destruct (dry (training_loop env gen disc gen_opt disc_opt criterion dataloader
                               n_epochs display_step)) as [td rd] eqn:Ed.
  apply dry_training_loop in Ed. destruct Ed as [[rest' Hp'] Hs'].
  cbn [fst snd] in *. split; cbn [fst snd].
  - subst td. rewrite filter_app, <- app_assoc in Hp'. eauto.
  - intros a Ha. specialize (Hs a Ha). injection Hs as -> ->. apply (Hs' a eq_refl).
Qed.

End Loop.

(** ** What the observed calls contain *)

Lemma filter_update_observed (l : list Call) :
  filter is_update (filter observed l) = filter is_update l.
Proof.
  induction l as [| c l IH]; [reflexivity |]. cbn [filter].
  unfold observed at 1. destruct (is_update c) eqn:E; cbn [orb filter].
  - rewrite E, IH. reflexivity.
  - destruct (is_save c || is_epoch c); cbn [filter]; [rewrite E |]; exact IH.
Qed.

Lemma saved_paths_observed (l : list Call) :
  saved_paths (filter observed l) = saved_paths l.
Proof.
  induction l as [| c l IH]; [reflexivity |]. cbn [filter].
  destruct (observed c) eqn:E.
  - unfold saved_paths in *. cbn [flat_map]. rewrite IH. reflexivity.
  - unfold saved_paths in *. cbn [flat_map]. rewrite IH.
    destruct c; try reflexivity. discriminate E.
Qed.

Lemma saved_paths_app (a b : list Call) :
  saved_paths (a ++ b) = saved_paths a ++ saved_paths b.
Proof. apply flat_map_app. Qed.

Lemma steps_from_S (step : Z) (n : nat) :
  steps_from step (S n) = step :: steps_from (step + 1) n.
Proof.
  unfold steps_from. cbn [seq map]. rewrite <- seq_shift, map_map. f_equal.
  - cbn. lia.
  - apply map_ext. intros i. rewrite Nat2Z.inj_succ. lia.
Qed.

Lemma steps_from_app (step : Z) (n m : nat) :
  steps_from step (n + m) = steps_from step n ++ steps_from (step + Z.of_nat n) m.
Proof.
  revert step. induction n as [| n IH]; intros step.
  - cbn. replace (step + 0) with step by lia. reflexivity.
  - cbn [Nat.add]. rewrite !steps_from_S, IH. cbn [app]. do 3 f_equal.
    rewrite Nat2Z.inj_succ. lia.
Qed.

Lemma steps_below_from (total : Z) : steps_below total = steps_from 0 (Z.to_nat total).
Proof. unfold steps_below, steps_from. apply map_ext. intros i. lia. Qed.

Lemma in_steps_below (total n : Z) : In n (steps_below total) <-> 0 <= n < total.
Proof.
  unfold steps_below. rewrite in_map_iff. split.
  - intros (i & <- & Hi). apply in_seq in Hi. lia.
  - intros Hn. exists (Z.to_nat n). split; [lia |]. apply in_seq. lia.
Qed.

Section Projections.

Variables (env : Env) (gen disc : Net) (gen_opt disc_opt : Optimizer).
Variables (criterion : Criterion) (display_step : Z).

Let round := update_round env gen disc gen_opt disc_opt criterion.
Let due := snapshot_due display_step.

Lemma updates_of_batch (step : Z) (x : Tensor) :
  filter is_update
    (expected_batch env gen disc gen_opt disc_opt criterion display_step step x)
  = round x.
Proof.
  unfold expected_batch. rewrite filter_app.
  destruct (snapshot_due display_step step); cbn [filter snapshot_of is_update];
    rewrite app_nil_r; reflexivity.
Qed.

Lemma updates_of_batches (xs : list Tensor) : forall step,
  filter is_update
    (expected_batches env gen disc gen_opt disc_opt criterion display_step step xs)
  = flat_map round xs.
Proof.
  induction xs as [| x xs IH]; intros step; [reflexivity |].
  cbn [expected_batches flat_map]. rewrite filter_app, updates_of_batch, IH.
  reflexivity.
Qed.

Lemma updates_of_epochs (dataloader : DataLoader) (epochs : list nat) : forall step,
  filter is_update
    (expected_epochs env gen disc gen_opt disc_opt criterion display_step
                     dataloader step epochs)
  = flat_map round (flat_map (batches dataloader) epochs).
Proof.
  induction epochs as [| e epochs IH]; intros step; [reflexivity |].
  cbn [expected_epochs flat_map filter is_update].
  rewrite filter_app, updates_of_batches, IH, flat_map_app. reflexivity.
Qed.

Lemma saves_of_batch (step : Z) (x : Tensor) :
  saved_paths
    (expected_batch env gen disc gen_opt disc_opt criterion display_step step x)
  = if due step then [snapshot_path env step] else [].
Proof.
  unfold expected_batch, due. rewrite saved_paths_app.
  destruct (snapshot_due display_step step); reflexivity.
Qed.

Lemma saves_of_batches (xs : list Tensor) : forall step,
  saved_paths
    (expected_batches env gen disc gen_opt disc_opt criterion display_step step xs)
  = map (snapshot_path env) (filter due (steps_from step (List.length xs))).
Proof.
  induction xs as [| x xs IH]; intros step; [reflexivity |].
  cbn [expected_batches List.length]. rewrite saved_paths_app, saves_of_batch, IH.
  rewrite steps_from_S. cbn [filter]. destruct (due step); reflexivity.
Qed.

Lemma saves_of_epochs (dataloader : DataLoader) (epochs : list nat) : forall step,
  saved_paths
    (expected_epochs env gen disc gen_opt disc_opt criterion display_step
                     dataloader step epochs)
  = map (snapshot_path env)
        (filter due
           (steps_from step (List.length (flat_map (batches dataloader) epochs)))).
Proof.
  induction epochs as [| e epochs IH]; intros step; [reflexivity |].
  cbn [expected_epochs flat_map].
  change (saved_paths (LoaderIter e :: ?l)) with (saved_paths l).
  rewrite saved_paths_app, saves_of_batches, IH.
  rewrite length_app, steps_from_app, filter_app, map_app. reflexivity.
Qed.

End Projections.

(** ** The training loop *)

(** C1: in the training loop the discriminator is updated before the
    generator, once per batch.  Of the calls of any run, those that compute
    a loss or drive an optimizer are a beginning of the rounds of all the
    batches of all the epochs, in order, and exactly these rounds when the
    loop returns; a round ([update_round]) is: zero the discriminator
    optimizer's gradients, compute the discriminator loss, backpropagate it,
    step the discriminator optimizer, and only then zero the generator
    optimizer's gradients, compute the generator loss, backpropagate it and
    step the generator optimizer. *)
Theorem discriminator_then_generator_each_batch
    (env : Env) (gen disc : Net) (gen_opt disc_opt : Optimizer) (criterion : Criterion)
    (dataloader : DataLoader) (n_epochs display_step : Z)
    (h t : list Event) (r : Exn + unit) :
  run env (training_loop env gen disc gen_opt disc_opt criterion dataloader
                         n_epochs display_step) h = (t, r) ->
  let rounds := flat_map (update_round env gen disc gen_opt disc_opt criterion)
                         (all_batches dataloader n_epochs) in
  (exists rest, rounds = filter is_update (calls t) ++ rest)
  /\ (r = inr tt -> filter is_update (calls t) = rounds).
Proof.
  intros Hrun rounds. apply training_loop_observed in Hrun.
  destruct Hrun as [[rest Hp] Hs]. cbn [fst snd] in *.
  unfold rounds, all_batches. split.
  - exists (filter is_update rest).
    rewrite <- (updates_of_epochs env gen disc gen_opt disc_opt criterion display_step
                                  dataloader _ 0).
    rewrite Hp, filter_app, filter_update_observed. reflexivity.
  - intros Hr.
    rewrite <- (updates_of_epochs env gen disc gen_opt disc_opt criterion display_step
                                  dataloader _ 0).
    rewrite <- (Hs tt Hr), filter_update_observed. reflexivity.
Qed.

Lemma discriminator_then_generator_each_batch_witness :
  let env := quiet_env [] 0 in
  filter is_update (calls (fst (run env (tiny_training env 2 2) [])))
  = flat_map (update_round env tiny_gen tiny_disc (AnalogSGD tiny_gen LR)
                           (AnalogSGD tiny_disc LR) BCEWithLogitsLoss)
             (all_batches tiny_loader 2).
Proof.
  intros env.
  refine (proj2 (discriminator_then_generator_each_batch env tiny_gen tiny_disc
                   (AnalogSGD tiny_gen LR) (AnalogSGD tiny_disc LR) BCEWithLogitsLoss
                   tiny_loader 2 2 [] (fst (run env (tiny_training env 2 2) []))
                   (inr tt) _) eq_refl).
  vm_compute. reflexivity.
Defined.

(** C2: a grid of fake images is stored exactly at the steps that are a
    multiple of [display_step] and greater than 0, the step counter
    starting at 0 and counting the batches.  In any run the images saved
    are a beginning of the snapshots of those steps, in order, and all of
    them when the loop returns; a file is saved only for such a step; none
    is saved for step 0; and none at all when the batches are at most
    [display_step]. *)
Theorem snapshot_written_iff_step_due
    (env : Env) (gen disc : Net) (gen_opt disc_opt : Optimizer) (criterion : Criterion)
    (dataloader : DataLoader) (n_epochs display_step : Z)
    (h t : list Event) (r : Exn + unit) :
  run env (training_loop env gen disc gen_opt disc_opt criterion dataloader
                         n_epochs display_step) h = (t, r) ->
  let total := Z.of_nat (List.length (all_batches dataloader n_epochs)) in
  let due := filter (snapshot_due display_step) (steps_below total) in
  (exists rest, map (snapshot_path env) due = saved_paths (calls t) ++ rest)
  /\ (r = inr tt -> saved_paths (calls t) = map (snapshot_path env) due)
  /\ (r = inr tt -> forall n, 0 <= n < total ->
        (In (snapshot_path env n) (saved_paths (calls t))
         <-> n mod display_step = 0 /\ 0 < n))
  /\ (forall p, In p (saved_paths (calls t)) ->
        exists n, p = snapshot_path env n /\ 0 < n < total /\ n mod display_step = 0)
  /\ ~ In (snapshot_path env 0) (saved_paths (calls t))
  /\ (total <= display_step -> saved_paths (calls t) = []).
Proof.
  intros Hrun total due. apply training_loop_observed in Hrun.
  destruct Hrun as [[rest Hp] Hs]. cbn [fst snd] in *.
  assert (Hexp : saved_paths
                   (expected_epochs env gen disc gen_opt disc_opt criterion display_step
                                    dataloader 0 (seq 0 (Z.to_nat n_epochs)))
                 = map (snapshot_path env) due).
  { rewrite saves_of_epochs. unfold due, total, all_batches.
    rewrite steps_below_from, Nat2Z.id. reflexivity. }
  assert (Hprefix : map (snapshot_path env) due
                    = saved_paths (calls t) ++ saved_paths rest).
  { rewrite <- Hexp, Hp, saved_paths_app, saved_paths_observed. reflexivity. }
  assert (Hdue : forall n, In n due <-> (0 <= n < total) /\ n mod display_step = 0 /\ 0 < n).
  { intros n. unfold due. rewrite filter_In, in_steps_below. unfold snapshot_due.
    rewrite andb_true_iff, Z.eqb_eq, Z.ltb_lt. tauto. }
  assert (Honly : forall p, In p (saved_paths (calls t)) ->
            exists n, p = snapshot_path env n /\ 0 < n < total /\ n mod display_step = 0).
  { intros p Hin.
    assert (Hin' : In p (map (snapshot_path env) due))
      by (rewrite Hprefix; apply in_or_app; left; exact Hin).
    apply in_map_iff in Hin'. destruct Hin' as (n & <- & Hn).
    apply Hdue in Hn. exists n. repeat split; lia. }
  assert (Hall : r = inr tt -> saved_paths (calls t) = map (snapshot_path env) due).
  { intros Hr. rewrite <- Hexp, <- (Hs tt Hr), saved_paths_observed. reflexivity. }
  split; [eauto |]. split; [exact Hall |]. split; [| split; [exact Honly | split]].
  - intros Hr n Hn. rewrite (Hall Hr). split.
    + intros Hin. apply in_map_iff in Hin. destruct Hin as (m & E & Hm).
      apply Hdue in Hm. apply snapshot_path_inj in E; [| lia | lia]. subst m. tauto.
    + intros Hd. apply in_map. apply Hdue. tauto.
  - intros Hin. destruct (Honly _ Hin) as (n & E & Hn & _).
    apply snapshot_path_inj in E; lia.
  - intros Hsmall. destruct (saved_paths (calls t)) as [| p l]; [reflexivity |].
    destruct (Honly p (or_introl eq_refl)) as (n & _ & Hn & Hmod).
    rewrite Z.mod_small in Hmod by lia. lia.
Qed.

Lemma snapshot_written_iff_step_due_witness :
  let env := quiet_env [] 0 in
  saved_paths (calls (fst (run env (tiny_training env 2 2) [])))
  = [lit "/w/results/GAN/fake_images_step_2.png";
     lit "/w/results/GAN/fake_images_step_4.png"].
Proof.
  intros env.
  refine (eq_trans
            (proj1 (proj2 (snapshot_written_iff_step_due env tiny_gen tiny_disc
                             (AnalogSGD tiny_gen LR) (AnalogSGD tiny_disc LR)
                             BCEWithLogitsLoss tiny_loader 2 2 []
                             (fst (run env (tiny_training env 2 2) []))
                             (inr tt) _)) eq_refl) _).
  - vm_compute. reflexivity.
  - vm_compute. reflexivity.
Defined.

(** ** The animation follows the training *)















Ltac peel H :=
  repeat match type of H with
         | run _ (Do _ _) _ = _ =>
             let t' := fresh "t" in
             apply run_Do_ok in H; destruct H as (t' & -> & H)
         end.



Lemma run_Do_any {A} (env : Env) (c : Call) (k : Prog A) h t r :
  run env (Do c k) h = (t, r) ->
  (exists e, t = [Raised c e] /\ r = inl e)
  \/ (exists t', t = Returned c :: t' /\ run env k (Returned c :: h) = (t', r)).
Proof.
  simpl. destruct (outcome env h c) as [e |].
  - intros H. injection H as <- <-. left. eauto.
  - destruct (run env k (Returned c :: h)) as [t' r']. intros H.
    injection H as <- <-. right. eauto.
Qed.






Lemma run_returns {A} (env : Env) (p : Prog A) (h : list Event) (a : A) :
  snd (run env p h) = inr a -> run env p h = (fst (run env p h), inr a).
Proof. destruct (run env p h) as [t r]. cbn. intros ->. reflexivity. Qed.


(** * Further properties of the code *)

(** ** Which network a loss trains *)

(** The loss of the discriminator is computed on detached images: a
    backward pass from it reaches the discriminator, twice, and nothing
    else.  The loss of the generator reaches the discriminator and, through
    it, the generator. *)
Theorem disc_loss_spares_generator
    (env : Env) (h1 h2 t1 t2 : list Event) (gen disc : Net) (criterion : Criterion)
    (real : Tensor) (num_images z_dim : Z) (device : Device) (dl gl : Tensor) :
  run env (get_disc_loss gen disc criterion real num_images z_dim device) h1
    = (t1, inr dl) ->
  run env (get_gen_loss gen disc criterion num_images z_dim device) h2
    = (t2, inr gl) ->
  reaches dl = [disc; disc] /\ reaches gl = [disc; gen].
Proof.
  intros Hd Hg.
  apply run_dry in Hd; [| cbn; tauto]. destruct Hd as [_ Hd].
  specialize (Hd dl eq_refl).
  apply run_dry in Hg; [| cbn; tauto]. destruct Hg as [_ Hg].
  specialize (Hg gl eq_refl).
  unfold get_disc_loss in Hd. unfold get_gen_loss in Hg.
  dry_step Hd. dry_step Hg.
  destruct ((num_images <? 0) || (z_dim <? 0)); [discriminate |].
  injection Hd as _ <-. injection Hg as _ <-. split; reflexivity.
Qed.

Lemma disc_loss_spares_generator_witness :
  let env := quiet_env [] 0 in
  let real := To (View (Batch 0 0 [2; 1; 28; 28]) [2; -1]) CPU in
  reaches (DivBy
             (Add (Loss BCEWithLogitsLoss (Apply tiny_disc (Detach real))
                        (OnesLike (Apply tiny_disc (Detach real))))
                  (Loss BCEWithLogitsLoss
                        (Apply tiny_disc (Detach (Apply tiny_gen (To (Randn 2 64) CPU))))
                        (ZerosLike
                           (Apply tiny_disc
                                  (Detach (Apply tiny_gen (To (Randn 2 64) CPU)))))))
             2)
  = [tiny_disc; tiny_disc].
Proof.
  intros env real.
  exact (proj1 (disc_loss_spares_generator env [] []
                  (fst (run env (get_disc_loss tiny_gen tiny_disc BCEWithLogitsLoss
                                               real 2 64 CPU) []))
                  (fst (run env (get_gen_loss tiny_gen tiny_disc BCEWithLogitsLoss
                                              2 64 CPU) []))
                  tiny_gen tiny_disc BCEWithLogitsLoss real 2 64 CPU _ _
                  eq_refl eq_refl)).
Defined.

(** ** The running means *)









(** ** A zero [display_step] *)

Lemma saved_prefix (env : Env) gen disc gen_opt disc_opt criterion dataloader
    n_epochs display_step h t r :
  run env (training_loop env gen disc gen_opt disc_opt criterion dataloader
                         n_epochs display_step) h = (t, r) ->
  exists rest,
    map (snapshot_path env)
        (filter (snapshot_due display_step)
                (steps_below (Z.of_nat (List.length (all_batches dataloader n_epochs)))))
    = saved_paths (calls t) ++ rest.
Proof.
  intros Hrun. apply training_loop_observed in Hrun.
  destruct Hrun as [[rest Hp] _]. cbn [fst snd] in Hp.
  exists (saved_paths rest).
  rewrite <- saved_paths_observed, <- saved_paths_app, <- Hp, saves_of_epochs.
  unfold all_batches. rewrite steps_below_from, Nat2Z.id. reflexivity.
Qed.

Lemma view_flatten (b : Z) :
  0 < b -> infer_size (numel [b; 1; 28; 28]) [b; -1] = inr [b; 784].
Proof.
  intros Hb. unfold infer_size. cbn [scan_dims].
  destruct (Z.eqb_spec b (-1)); [lia |].
  destruct (Z.leb_spec 0 b); [| lia].
  change (-1 =? -1) with true. cbv iota.
  replace (numel [b; 1; 28; 28]) with (784 * (1 * b)) by (unfold numel; cbn [fold_right]; lia).
  replace ((784 * (1 * b)) mod (1 * b)) with 0 by (rewrite Z_mod_mult; reflexivity).
  replace ((784 * (1 * b)) / (1 * b)) with 784 by (rewrite Z.div_mul; lia).
  destruct (Z.ltb_spec 0 (1 * b)); [| lia].
  destruct (Z.eqb_spec (1 * b) 0); [lia |].
  rewrite orb_true_r. cbn [map]. rewrite Z.eqb_refl.
  destruct (Z.eqb_spec b (-1)); [lia | reflexivity].
Qed.

Lemma dry_train_batch_zero (env : Env) gen disc gen_opt disc_opt criterion real0 st t r :
  dry (train_batch env gen disc gen_opt disc_opt criterion 0 real0 st) = (t, r) ->
  exists e, r = inl e.
Proof.
  unfold train_batch, true_div, py_mod. change (0 =? 0) with true. cbv iota.
  intros H. dry_step H. repeat (break_in H; dry_step H).
  all: injection H as <- <-; eauto.
Qed.

Lemma dry_training_loop_zero (env : Env) gen disc gen_opt disc_opt criterion dataloader
    n_epochs :
  0 < n_epochs -> batch_shapes dataloader <> [] ->
  exists e, snd (dry (training_loop env gen disc gen_opt disc_opt criterion dataloader
                                    n_epochs 0)) = inl e.
Proof.
  intros Hn Hb. unfold training_loop. rewrite dry_bind.
  destruct (Z.to_nat n_epochs) as [| k] eqn:Ek; [lia |].
  cbn [seq for_each]. rewrite dry_bind. unfold for_batches at 1.
  cbn [bind call]. cbn [dry lib_error]. rewrite dry_bind.
  unfold batches at 1. destruct (batch_shapes dataloader) as [| s0 shapes]; [congruence |].
  cbn [List.length seq combine map for_each]. rewrite dry_bind.
  cbn [bind call dry lib_error].
  destruct (dry (train_batch env gen disc gen_opt disc_opt criterion 0 _ _))
    as [t1 r1] eqn:E1.
  destruct (dry_train_batch_zero _ _ _ _ _ _ _ _ _ _ E1) as [e ->].
  exists e. reflexivity.
Qed.

Lemma dry_train_batch_zero_images (env : Env) gen disc gen_opt disc_opt criterion
    (e i : nat) (b : Z) st t r :
  0 < b ->
  dry (train_batch env gen disc gen_opt disc_opt criterion 0 (Batch e i [b; 1; 28; 28]) st)
    = (t, r) ->
  r = inl ZeroDivisionError
  /\ filter is_update t
     = update_round env gen disc gen_opt disc_opt criterion (Batch e i [b; 1; 28; 28]).
Proof.
  intros Hb. unfold train_batch, true_div, py_mod. change (0 =? 0) with true. cbv iota.
  intros H. dry_step H. cbn [shape_of hd] in H.
  rewrite (view_flatten b Hb) in H.
  destruct (Z.ltb_spec b 0); [lia |]. change (Z_DIM <? 0) with false in H.
  cbn [orb] in H. dry_step H.
  injection H as <- <-. split; reflexivity.
Qed.

(** With [display_step = 0] the training loop cannot return once there
    is a batch to process: every run ends with an exception, and no image
    is saved.  When the libraries raise nothing of their own, the first
    batch of MNIST images goes through its whole round, both optimizers
    stepping, and the loop then ends with [ZeroDivisionError] at the first
    [/ display_step]. *)
Theorem zero_display_step_never_returns
    (env : Env) (gen disc : Net) (gen_opt disc_opt : Optimizer) (criterion : Criterion)
    (dataloader : DataLoader) (n_epochs : Z) (h t : list Event) (r : Exn + unit)
    (b : Z) (more : list (list Z)) :
  0 < n_epochs -> 0 < b ->
  batch_shapes dataloader = [b; 1; 28; 28] :: more ->
  run env (training_loop env gen disc gen_opt disc_opt criterion dataloader
                         n_epochs 0) h = (t, r) ->
  (exists e, r = inl e)
  /\ saved_paths (calls t) = []
  /\ snd (dry (training_loop env gen disc gen_opt disc_opt criterion dataloader
                             n_epochs 0)) = inl ZeroDivisionError
  /\ filter is_update
       (fst (dry (training_loop env gen disc gen_opt disc_opt criterion dataloader
                                n_epochs 0)))
     = update_round env gen disc gen_opt disc_opt criterion (Batch 0 0 [b; 1; 28; 28]).
Proof.
  intros Hn Hb Hshapes Hrun. split; [| split].
  - destruct r as [e | []]; [eauto |]. exfalso.
    apply run_dry in Hrun; [| apply training_loop_listing_free].
    destruct Hrun as [_ Hrun]. specialize (Hrun tt eq_refl).
    destruct (dry_training_loop_zero env gen disc gen_opt disc_opt criterion dataloader
                n_epochs Hn) as [e He]; [rewrite Hshapes; discriminate |].
    rewrite Hrun in He. discriminate.
  - destruct (saved_prefix _ _ _ _ _ _ _ _ _ _ _ _ Hrun) as [rest Hp].
    assert (Hnone : forall l, filter (snapshot_due 0) l = []).
    { induction l as [| s l IH]; [reflexivity |]. cbn [filter]. unfold snapshot_due at 1.
      rewrite Z.mod_0_r.
      destruct (Z.eqb_spec s 0); subst; exact IH. }
    rewrite Hnone in Hp. cbn [map] in Hp. symmetry in Hp.
    apply app_eq_nil in Hp. tauto.
  - assert (E : exists t1,
      dry (training_loop env gen disc gen_opt disc_opt criterion dataloader n_epochs 0)
        = (LoaderIter 0 :: LoaderNext :: t1, inl ZeroDivisionError)
      /\ filter is_update t1
         = update_round env gen disc gen_opt disc_opt criterion
                        (Batch 0 0 [b; 1; 28; 28])).
    { unfold training_loop. rewrite dry_bind.
      destruct (Z.to_nat n_epochs) as [| k] eqn:Ek; [lia |].
      cbn [seq for_each]. rewrite dry_bind. unfold for_batches at 1.
      cbn [bind call]. cbn [dry lib_error]. rewrite dry_bind.
      unfold batches at 1. rewrite Hshapes.
      cbn [List.length seq combine map for_each fst snd]. rewrite dry_bind.
      cbn [bind call dry lib_error].
      destruct (dry (train_batch env gen disc gen_opt disc_opt criterion 0 _ _))
        as [t1 r1] eqn:E1.
      destruct (dry_train_batch_zero_images _ _ _ _ _ _ _ _ _ _ _ _ Hb E1) as [-> Hu].
      exists t1. split; [reflexivity | exact Hu]. }
    destruct E as (t1 & -> & Hu). cbn [fst snd filter is_update].
    split; [reflexivity | exact Hu].
Qed.

Lemma zero_display_step_never_returns_witness :
  (exists e, snd (run (quiet_env [] 0) (tiny_training (quiet_env [] 0) 1 0) []) = inl e)
  /\ saved_paths (calls (fst (run (quiet_env [] 0)
                                  (tiny_training (quiet_env [] 0) 1 0) []))) = []
  /\ snd (dry (tiny_training (quiet_env [] 0) 1 0)) = inl ZeroDivisionError.
Proof.
  pose proof (zero_display_step_never_returns (quiet_env [] 0) tiny_gen tiny_disc
                (AnalogSGD tiny_gen LR) (AnalogSGD tiny_disc LR) BCEWithLogitsLoss
                tiny_loader 1 [] (fst (run (quiet_env [] 0)
                                           (tiny_training (quiet_env [] 0) 1 0) []))
                (snd (run (quiet_env [] 0) (tiny_training (quiet_env [] 0) 1 0) []))
                2 [[2; 1; 28; 28]; [1; 1; 28; 28]]
                ltac:(lia) ltac:(lia) eq_refl (surjective_pairing _))
    as (H1 & H2 & H3 & _).
  split; [exact H1 | split; [exact H2 | exact H3]].
Defined.

(** ** Devices *)




(** ** The seed *)

(** In a run of [main] only the creation of the results directory comes
    before the seed: every other call, be it the loading of the dataset,
    the building of a layer, the shuffling of the loader or the drawing of
    noise, is made after [torch.manual_seed(SEED)] has returned. *)
Theorem seed_before_everything_else (env : Env) (h t : list Event) (r : Exn + unit)
    (pre post : list Event) (ev : Event) :
  run env (main env) h = (t, r) ->
  t = pre ++ ev :: post ->
  call_of ev <> MakeDirs (RESULTS env) true ->
  call_of ev <> ManualSeed SEED ->
  In (Returned (ManualSeed SEED)) pre.
Proof.
  intros Hrun Ht Hdirs Hseed. unfold main in Hrun.
  cbn [bind call] in Hrun.
  apply run_Do_any in Hrun. destruct Hrun as [(e & -> & _) | (t1 & -> & Hrun)].
  - destruct pre as [| p0 pre].
    + injection Ht as <- _. cbn in Hdirs. congruence.
    + injection Ht as _ Ht. destruct pre; discriminate.
  - apply run_Do_any in Hrun. destruct Hrun as [(e & -> & _) | (t2 & -> & _)].
    + destruct pre as [| p0 [| p1 pre]].
      * injection Ht as <- _. cbn in Hdirs. congruence.
      * injection Ht as _ <- _. cbn in Hseed. congruence.
      * injection Ht as _ _ Ht. destruct pre; discriminate.
    + destruct pre as [| p0 [| p1 pre]].
      * injection Ht as <- _. cbn in Hdirs. congruence.
      * injection Ht as _ <- _. cbn in Hseed. congruence.
      * injection Ht as _ <- _. right. left. reflexivity.
Qed.

Lemma seed_before_everything_else_witness :
  let env := quiet_env [] 0 in
  nth_error (fst (run env (main env) [])) 2 = Some (Returned NewToTensor)
  /\ In (Returned (ManualSeed SEED)) (firstn 2 (fst (run env (main env) []))).
Proof.
  intros env. split; [vm_compute; reflexivity |].
  apply (seed_before_everything_else env [] (fst (run env (main env) []))
           (snd (run env (main env) []))
           (firstn 2 (fst (run env (main env) [])))
           (skipn 3 (fst (run env (main env) [])))
           (Returned NewToTensor)).
  - apply surjective_pairing.
  - vm_compute. reflexivity.
  - discriminate.
  - discriminate.
Defined.

(** ** Files that are not snapshots *)

Lemma int_error (s : str) (e : Exn) :
  int s = inl e -> e = ValueError "invalid literal for int() with base 10".
Proof.
  unfold int.
  destruct (match strip s with
            | [] => None
            | c :: r =>
                if Ascii.eqb c "-"%char then option_map Z.opp (parse_digits r 0 false)
                else if Ascii.eqb c "+"%char then parse_digits r 0 false
                else parse_digits (strip s) 0 false
            end) as [z |]; [discriminate |].
  intros H. injection H as <-. reflexivity.
Qed.

Lemma sorted_fails {A} (key : A -> Exn + Z) (l : list A) (x : A) (e : Exn) :
  In x l -> key x = inl e ->
  exists y e', In y l /\ key y = inl e' /\ sorted key l = inl e'.
Proof.
  unfold sorted. induction l as [| y l IH]; intros Hin Hx; [contradiction |].
  cbn [keyed]. destruct (key y) as [e' | k] eqn:Ey.
  - exists y, e'. split; [left; reflexivity | auto].
  - destruct Hin as [-> | Hin]; [congruence |].
    destruct (IH Hin Hx) as (z & e' & Hz & Hkz & Hs).
    exists z, e'. split; [right; exact Hz | split; [exact Hkz |]].
    destruct (keyed key l) as [e'' | kl]; [exact Hs | discriminate].
Qed.

(** One file matching [fake_*.png] whose name does not end in
    [_<integer>.png] is enough to stop the animation: whatever the
    libraries do, [show_animation_fake_images] then ends with an exception
    having made no call but [plt.figure], [plt.axis] and [glob.glob]; no
    image is read and no animation is saved.  When no library raises, the
    exception is the [ValueError] of [int] and these three calls are all
    made. *)
Theorem stray_file_stops_animation (env : Env) (h t : list Event) (r : Exn + unit)
    (f : str) (e0 : Exn) :
  run env (show_animation_fake_images env) h = (t, r) ->
  In f (glob (RESULTS env ++ lit "/fake_*.png") (files_after env h)) ->
  step_of_path f = inl e0 ->
  (exists e, r = inl e)
  /\ Forall (opens_figure env) (calls t)
  /\ (never_raises env ->
      r = inl (ValueError "invalid literal for int() with base 10")
      /\ calls t = [Figure 8 8; Axis (lit "off");
                    Glob (RESULTS env ++ lit "/fake_*.png")]).
Proof.
  intros Hrun Hin Hkey.
  destruct (sorted_fails step_of_path _ f e0 Hin Hkey) as (y & e' & _ & Hy & Hs).
  apply int_error in Hy. subst e'.
  unfold show_animation_fake_images in Hrun. cbn [bind call] in Hrun.
  split; [| split].
  - apply run_Do_any in Hrun. destruct Hrun as [(e & -> & ->) | (t1 & -> & Hrun)]; [eauto |].
    apply run_Do_any in Hrun. destruct Hrun as [(e & -> & ->) | (t2 & -> & Hrun)]; [eauto |].
    cbn [run] in Hrun. destruct (outcome env _ (Glob _)) as [e |].
    + injection Hrun as <- <-. eauto.
    + change (files_after env (Returned (Axis (lit "off")) :: Returned (Figure 8 8) :: h))
        with (files_after env h) in Hrun.
      rewrite Hs in Hrun. cbn [lift bind run] in Hrun. injection Hrun as <- <-. eauto.
  - assert (Hall : forall l, incl l [Figure 8 8; Axis (lit "off");
                                       Glob (RESULTS env ++ lit "/fake_*.png")] ->
                              Forall (opens_figure env) l).
    { intros l Hl. apply Forall_forall. intros c Hc. apply Hl in Hc.
      unfold opens_figure. destruct Hc as [<- | [<- | [<- | []]]]; auto. }
    apply Hall. clear Hall.
    apply run_Do_any in Hrun. destruct Hrun as [(e & -> & ->) | (t1 & -> & Hrun)];
      [intros c [<- | []]; cbn; auto |].
    apply run_Do_any in Hrun. destruct Hrun as [(e & -> & ->) | (t2 & -> & Hrun)];
      [intros c [<- | [<- | []]]; cbn; auto |].
    cbn [run] in Hrun. destruct (outcome env _ (Glob _)) as [e |].
    + injection Hrun as <- <-. intros c [<- | [<- | [<- | []]]]; cbn; auto.
    + change (files_after env (Returned (Axis (lit "off")) :: Returned (Figure 8 8) :: h))
        with (files_after env h) in Hrun.
      rewrite Hs in Hrun. cbn [lift bind run] in Hrun. injection Hrun as <- <-.
      intros c [<- | [<- | [<- | []]]]; cbn; auto.
  - intros Hq. cbn [run] in Hrun. unfold outcome in Hrun. rewrite !Hq in Hrun.
    cbn [lib_error] in Hrun.
    change (files_after env (Returned (Axis (lit "off")) :: Returned (Figure 8 8) :: h))
      with (files_after env h) in Hrun.
    rewrite Hs in Hrun. cbn [lift bind run] in Hrun.
    injection Hrun as <- <-. split; reflexivity.
Qed.

Lemma stray_file_stops_animation_witness :
  let env := quiet_env [lit "/w/results/GAN/fake_notes.png"] 0 in
  snd (run env (show_animation_fake_images env) [])
    = inl (ValueError "invalid literal for int() with base 10")
  /\ calls (fst (run env (show_animation_fake_images env) []))
     = [Figure 8 8; Axis (lit "off"); Glob (RESULTS env ++ lit "/fake_*.png")].
Proof.
  intros env.
  refine (proj2 (proj2 (stray_file_stops_animation env []
                    (fst (run env (show_animation_fake_images env) []))
                    (snd (run env (show_animation_fake_images env) []))
                    (lit "/w/results/GAN/fake_notes.png")
                    (ValueError "invalid literal for int() with base 10")
                    (surjective_pairing _) _ _)) _).
  - vm_compute. left. reflexivity.
  - vm_compute. reflexivity.
  - intros h c. reflexivity.
Defined.

(** ** The names of the image files *)

Lemma store_tensor_images_path (env : Env) (image_tensor : Tensor) (label : str)
    (current_step num_images : Z) (size : list Z) :
  safe (saves_at (path_join (RESULTS env) [image_name label current_step]))
       (fun _ => True)
       (store_tensor_images env image_tensor label current_step num_images size).
Proof.
  unfold store_tensor_images, image_name. cbn [bind call tensor safe saves_at].
  repeat match goal with
         | |- _ /\ _ => split; [first [reflexivity | exact I] |]
         end.
  exact I.
Qed.

Lemma saved_by_store (env : Env) (image_tensor : Tensor) (label : str)
    (current_step num_images : Z) (size : list Z) h t r grid p :
  run env (store_tensor_images env image_tensor label current_step num_images size) h
    = (t, r) ->
  In (SaveImage grid p) (calls t) ->
  p = path_join (RESULTS env) [image_name label current_step].
Proof.
  intros Hrun Hin.
  destruct (safe_run env _ _ _ _ _ _
              (store_tensor_images_path env image_tensor label current_step
                                        num_images size) Hrun) as [Hall _].
  rewrite Forall_forall in Hall. exact (Hall _ Hin).
Qed.

Lemma join2_suffix (a b : str) : exists pre, join2 a b = pre ++ b.
Proof.
  unfold join2. destruct (startswith (lit "/") b); [exists []; reflexivity |].
  destruct a as [| c a]; [exists []; reflexivity |].
  destruct (endswith (lit "/") (c :: a)).
  - exists (c :: a). reflexivity.
  - exists ((c :: a) ++ lit "/"). rewrite <- app_assoc. reflexivity.
Qed.

Lemma step_of_suffixed (pre : str) (n : Z) :
  0 <= n -> step_of_path (pre ++ "_"%char :: str_of_int n ++ lit ".png") = inr n.
Proof.
  intros Hn. unfold step_of_path. change (lit "_") with ["_"%char].
  rewrite split_char_last.
  - replace (str_of_int n ++ lit ".png")
      with (str_of_int n ++ ("."%char :: lit "png") ++ [])
      by (rewrite app_nil_r; reflexivity).
    change (lit ".png") with ("."%char :: lit "png").
    rewrite split_first by (apply digits_free_of; [exact Hn | reflexivity]).
    apply int_str_of_int. exact Hn.
  - intros Hin. apply in_app_or in Hin. destruct Hin as [Hin | Hin].
    + revert Hin. apply digits_free_of; [exact Hn | reflexivity].
    + simpl in Hin. intuition discriminate.
Qed.

(** Writing and reading back the step.  Whatever the label (it may hold
    underscores, dots, [.png] or path separators), whatever the working
    directory and whatever the tensor, the file [store_tensor_images]
    writes at a step [n >= 0] has [n] as the key that
    [show_animation_fake_images] sorts by:
    [int(path.split('_')[-1].split('.png')[0])] is [n]. *)
Theorem step_read_back_for_any_label
    (env : Env) (image_tensor : Tensor) (label : str) (current_step num_images : Z)
    (size : list Z) (h t : list Event) (r : Exn + unit) (grid : Tensor) (p : str) :
  0 <= current_step ->
  run env (store_tensor_images env image_tensor label current_step num_images size) h
    = (t, r) ->
  In (SaveImage grid p) (calls t) ->
  step_of_path p = inr current_step.
Proof.
  intros Hn Hrun Hin.
  rewrite (saved_by_store _ _ _ _ _ _ _ _ _ _ _ Hrun Hin).
  unfold path_join. cbn [fold_left].
  destruct (join2_suffix (RESULTS env) (image_name label current_step)) as [pre ->].
  unfold image_name.
  replace (pre ++ label ++ lit "_step_" ++ str_of_int current_step ++ lit ".png")
    with ((pre ++ label ++ lit "_step")
          ++ "_"%char :: str_of_int current_step ++ lit ".png")
    by (rewrite <- !app_assoc; reflexivity).
  apply step_of_suffixed. exact Hn.
Qed.

Lemma step_read_back_for_any_label_witness :
  let env := quiet_env [] 0 in
  let label := lit "/tmp/real_1.png_v" in
  let t := fst (run env (store_tensor_images env (Randn 3 784) label 1500
                                             default_num_images default_size) []) in
  saved_paths (calls t) = [lit "/tmp/real_1.png_v_step_1500.png"]
  /\ step_of_path (lit "/tmp/real_1.png_v_step_1500.png") = inr 1500.
Proof.
  intros env label t. split; [vm_compute; reflexivity |].
  apply (step_read_back_for_any_label env (Randn 3 784) label 1500
           default_num_images default_size [] t
           (snd (run env (store_tensor_images env (Randn 3 784) label 1500
                                              default_num_images default_size) []))
           (MakeGrid (UpTo (View (Cpu (Detach (Randn 3 784))) [-1; 1; 28; 28]) 25) 5)).
  - lia.
  - apply surjective_pairing.
  - vm_compute. do 5 right. left. reflexivity.
Defined.

(** The label decides where the image goes.  A label that does not start
    with a path separator puts the file inside the results directory; one
    that does makes [os.path.join] drop the results directory, and the file
    is written at the label's own absolute path. *)
Theorem label_decides_directory
    (env : Env) (image_tensor : Tensor) (label : str) (current_step num_images : Z)
    (size : list Z) (h t : list Event) (r : Exn + unit) (grid : Tensor) (p : str) :
  run env (store_tensor_images env image_tensor label current_step num_images size) h
    = (t, r) ->
  In (SaveImage grid p) (calls t) ->
  p = if startswith (lit "/") label
      then image_name label current_step
      else RESULTS env ++ lit "/" ++ image_name label current_step.
Proof.
  intros Hrun Hin.
  rewrite (saved_by_store _ _ _ _ _ _ _ _ _ _ _ Hrun Hin).
  assert (Hs : startswith (lit "/") (image_name label current_step)
               = startswith (lit "/") label).
  { unfold image_name. destruct label as [| c label]; reflexivity. }
  destruct (startswith (lit "/") label) eqn:E.
  - unfold path_join. cbn [fold_left]. unfold join2. rewrite Hs. reflexivity.
  - apply RESULTS_join. exact Hs.
Qed.

Lemma label_decides_directory_witness :
  let env := quiet_env [] 0 in
  let saved label :=
    saved_paths (calls (fst (run env (store_tensor_images env (Randn 3 784) label 7
                                        default_num_images default_size) []))) in
  saved (lit "fake_images") = [lit "/w/results/GAN/fake_images_step_7.png"]
  /\ saved (lit "/tmp/fake_images") = [lit "/tmp/fake_images_step_7.png"]
  /\ lit "/tmp/fake_images_step_7.png" = image_name (lit "/tmp/fake_images") 7.
Proof.
  intros env saved. split; [vm_compute; reflexivity |].
  split; [vm_compute; reflexivity |].
  apply (label_decides_directory env (Randn 3 784) (lit "/tmp/fake_images") 7
           default_num_images default_size []
           (fst (run env (store_tensor_images env (Randn 3 784) (lit "/tmp/fake_images") 7
                                              default_num_images default_size) []))
           (snd (run env (store_tensor_images env (Randn 3 784) (lit "/tmp/fake_images") 7
                                              default_num_images default_size) []))
           (MakeGrid (UpTo (View (Cpu (Detach (Randn 3 784))) [-1; 1; 28; 28]) 25) 5)).
  - apply surjective_pairing.
  - vm_compute. do 5 right. left. reflexivity.
Defined.

(** ** Snapshots are written once *)

Lemma NoDup_map_on {A B} (f : A -> B) (l : list A) :
  (forall x y, In x l -> In y l -> f x = f y -> x = y) ->
  NoDup l -> NoDup (map f l).
Proof.
  intros Hinj Hl. induction Hl as [| x l Hx Hl IH]; [constructor |].
  cbn [map]. constructor.
  - intros Hin. apply in_map_iff in Hin. destruct Hin as (y & Hy & Hin).
    assert (y = x) by (apply Hinj; [right; exact Hin | left; reflexivity | exact Hy]).
    subst y. contradiction.
  - apply IH. intros a b Ha Hb. apply Hinj; right; assumption.
Qed.

(** No run of the training loop writes the same image file twice,
    whatever the loader, the number of epochs and [display_step]: the
    snapshots of a training never overwrite one another. *)
Theorem snapshots_never_overwritten
    (env : Env) (gen disc : Net) (gen_opt disc_opt : Optimizer) (criterion : Criterion)
    (dataloader : DataLoader) (n_epochs display_step : Z)
    (h t : list Event) (r : Exn + unit) :
  run env (training_loop env gen disc gen_opt disc_opt criterion dataloader
                         n_epochs display_step) h = (t, r) ->
  NoDup (saved_paths (calls t)).
Proof.
  intros Hrun. destruct (saved_prefix _ _ _ _ _ _ _ _ _ _ _ _ Hrun) as [rest Hp].
  apply (NoDup_app_remove_r _ rest). rewrite <- Hp.
  apply NoDup_map_on.
  - intros x y Hx Hy. apply filter_In in Hx, Hy.
    destruct Hx as [Hx _], Hy as [Hy _]. apply in_steps_below in Hx, Hy.
    apply snapshot_path_inj; lia.
  - apply NoDup_filter. unfold steps_below.
    apply NoDup_map_on; [| apply seq_NoDup].
    intros x y _ _. apply Nat2Z.inj.
Qed.

Lemma snapshots_never_overwritten_witness :
  let env := quiet_env [] 0 in
  let saved := saved_paths (calls (fst (run env (tiny_training env 2 2) []))) in
  List.length saved = 2%nat /\ NoDup saved.
Proof.
  intros env saved. split; [vm_compute; reflexivity |].
  apply (snapshots_never_overwritten env tiny_gen tiny_disc (AnalogSGD tiny_gen LR)
           (AnalogSGD tiny_disc LR) BCEWithLogitsLoss tiny_loader 2 2 []
           (fst (run env (tiny_training env 2 2) []))
           (snd (run env (tiny_training env 2 2) []))).
  apply surjective_pairing.
Defined.

(** ** How many updates a training makes *)

Lemma batch_sizes_length (n b : Z) :
  0 <= n -> 0 < b -> Z.of_nat (List.length (batch_sizes n b)) = (n + (b - 1)) / b.
Proof.
  intros Hn Hb. unfold batch_sizes. rewrite length_app, repeat_length, Nat2Z.inj_add.
  pose proof (Z.div_pos n b Hn Hb) as Hq.
  pose proof (Z.mod_pos_bound n b Hb) as Hm.
  pose proof (Z.div_mod n b ltac:(lia)) as Hd.
  rewrite Z2Nat.id by exact Hq.
  destruct (Z.eqb_spec (n mod b) 0) as [E | E]; cbn [List.length].
  - pose proof (Z.div_unique (n + (b - 1)) b (n / b) (b - 1)). lia.
  - pose proof (Z.div_unique (n + (b - 1)) b (n / b + 1) (n mod b - 1)). lia.
Qed.

Lemma batches_length (dataloader : DataLoader) (epoch : nat) :
  List.length (batches dataloader epoch) = List.length (batch_shapes dataloader).
Proof.
  unfold batches. rewrite length_map, length_combine, length_seq. apply Nat.min_id.
Qed.

Lemma all_batches_length (dataloader : DataLoader) (n_epochs : Z) :
  List.length (all_batches dataloader n_epochs)
  = (Z.to_nat n_epochs * List.length (batch_shapes dataloader))%nat.
Proof.
  unfold all_batches.
  assert (G : forall l : list nat,
             List.length (flat_map (batches dataloader) l)
             = (List.length l * List.length (batch_shapes dataloader))%nat).
  { induction l as [| e l IH]; [reflexivity |].
    cbn [flat_map List.length]. rewrite length_app, batches_length, IH. lia. }
  rewrite G, length_seq. reflexivity.
Qed.

Lemma filter_filter_sub {A} (P Q : A -> bool) (l : list A) :
  (forall x, P x = true -> Q x = true) -> filter P (filter Q l) = filter P l.
Proof.
  intros Hsub. induction l as [| x l IH]; [reflexivity |]. cbn [filter].
  destruct (Q x) eqn:Eq; cbn [filter].
  - rewrite IH. reflexivity.
  - destruct (P x) eqn:Ep; [| exact IH]. rewrite (Hsub x Ep) in Eq. discriminate.
Qed.

Lemma step_is_update (side : bool) (c : Call) :
  is_step_of side c = true -> is_update c = true.
Proof. destruct c; cbn; try discriminate. reflexivity. Qed.

Lemma steps_in_rounds (env : Env) (g d : Module) (lr lr' : FloatLit)
    (criterion : Criterion) (side : bool) (xs : list Tensor) :
  List.length
    (filter (is_step_of side)
       (flat_map (update_round env (GeneratorNet g) (DiscriminatorNet d)
                               (AnalogSGD (GeneratorNet g) lr)
                               (AnalogSGD (DiscriminatorNet d) lr') criterion) xs))
  = List.length xs.
Proof.
  induction xs as [| x xs IH]; [reflexivity |].
  cbn [flat_map]. rewrite filter_app, length_app, IH.
  destruct side; reflexivity.
Qed.

Lemma updates_when_returned (env : Env) gen disc gen_opt disc_opt criterion dataloader
    n_epochs display_step h t :
  run env (training_loop env gen disc gen_opt disc_opt criterion dataloader
                         n_epochs display_step) h = (t, inr tt) ->
  filter is_update (calls t)
  = flat_map (update_round env gen disc gen_opt disc_opt criterion)
             (all_batches dataloader n_epochs).
Proof.
  intros Hrun. apply training_loop_observed in Hrun.
  destruct Hrun as [_ Hs]. cbn [fst snd] in Hs. unfold all_batches.
  rewrite <- (updates_of_epochs env gen disc gen_opt disc_opt criterion display_step
                                dataloader _ 0).
  rewrite <- (Hs tt eq_refl), filter_update_observed. reflexivity.
Qed.

Lemma show_animation_updates_nothing (env : Env) :
  safe (fun c => is_update c = false) (fun _ => True) (show_animation_fake_images env).
Proof.
  unfold show_animation_fake_images. cbn [bind call safe is_update].
  repeat match goal with
         | |- _ /\ _ => split; [reflexivity |]
         end.
  intros l. destruct (sorted step_of_path l) as [e | frames]; cbn [lift bind safe];
    [exact I |].
  apply sound_bind.
  - apply sound_for_each. intros i ims. cbn. tauto.
  - intros ims. cbn. tauto.
Qed.

Lemma filter_none {A} (P : A -> bool) (l : list A) :
  Forall (fun x => P x = false) l -> filter P l = [].
Proof.
  induction 1 as [| x l Hx _ IH]; [reflexivity |]. cbn [filter]. rewrite Hx. exact IH.
Qed.

(** A run of [main] that returns has stepped each of the two optimizers
    once for every batch of every epoch: [N_EPOCHS] times the number of
    batches of [BATCH_SIZE] images needed to hold the dataset, the last one
    possibly short, that is 200 * ceil(n / 256) steps for a dataset of [n]
    images. *)
Theorem main_step_count (env : Env) (h t : list Event) (side : bool) :
  0 <= dataset_len env ->
  run env (main env) h = (t, inr tt) ->
  Z.of_nat (List.length (filter (is_step_of side) (calls t)))
  = N_EPOCHS * ((dataset_len env + (BATCH_SIZE - 1)) / BATCH_SIZE).
Proof.
  intros Hn H. unfold main in H.
  cbn [bind call Generator get_generator_block Discriminator get_discriminator_block]
    in H.
  peel H.
  apply run_bind_ok in H. destruct H as (train & [] & rest & Htrain & H & ->).
  apply run_bind_ok in H. destruct H as (anim & [] & rest' & Hanim & H & ->).
  cbn [bind call] in H. unfold call in H. peel H.
  apply run_Ret in H. destruct H as [-> _].
  unfold calls. cbn [map call_of filter is_step_of].
  rewrite !map_app, !filter_app, !length_app.
  fold (calls train). fold (calls anim).
  rewrite <- (filter_filter_sub (is_step_of side) is_update (calls train))
    by apply step_is_update.
  rewrite (updates_when_returned _ _ _ _ _ _ _ _ _ _ _ Htrain).
  rewrite steps_in_rounds, all_batches_length.
  cbn [batch_shapes]. rewrite length_map.
  rewrite <- (filter_filter_sub (is_step_of side) is_update (calls anim))
    by apply step_is_update.
  rewrite (filter_none is_update (calls anim)).
  - cbn [map call_of filter is_step_of List.length]. rewrite !Nat.add_0_r.
    rewrite Nat2Z.inj_mul, batch_sizes_length by (unfold BATCH_SIZE; lia).
    reflexivity.
  - exact (proj1 (safe_run env _ _ _ _ _ _ (show_animation_updates_nothing env) Hanim)).
Qed.

Lemma main_step_count_witness :
  let env := quiet_env [] 300 in
  Z.of_nat (List.length (filter (is_step_of true) (calls (fst (run env (main env) [])))))
  = 200 * 2.
Proof.
  intros env.
  refine (main_step_count env [] (fst (run env (main env) [])) true _ _).
  - cbn. lia.
  - apply run_returns. vm_compute. reflexivity.
Defined.

(** ** The layers fit one another *)

(** Whatever [z_dim], [im_dim] and [hidden_dim] are, the layers that
    [Generator] and [Discriminator] put in sequence fit: every dense layer
    and every batch normalisation receives the number of features it was
    built for.  The generator takes [z_dim] features to [im_dim], the
    discriminator takes [im_dim] features to one, so that a discriminator
    can be applied to what a generator built for the same [im_dim]
    returns. *)
Theorem layers_fit (env : Env) (z_dim im_dim hidden_dim : Z)
    (h h' t t' : list Event) (gen disc : Net) :
  run env (Generator z_dim im_dim hidden_dim) h = (t, inr gen) ->
  run env (Discriminator im_dim hidden_dim) h' = (t', inr disc) ->
  out_width (net_module gen) z_dim = Some im_dim
  /\ out_width (net_module disc) im_dim = Some 1.
Proof.
  intros Hg Hd.
  apply run_dry in Hg; [| cbn; tauto]. destruct Hg as [_ Hg].
  specialize (Hg gen eq_refl).
  apply run_dry in Hd; [| cbn; tauto]. destruct Hd as [_ Hd].
  specialize (Hd disc eq_refl).
  cbn [dry bind call Generator get_generator_block Discriminator get_discriminator_block
       lib_error] in Hg, Hd.
  injection Hg as _ <-. injection Hd as _ <-.
  cbn [net_module out_width]. rewrite !Z.eqb_refl. split; reflexivity.
Qed.

Lemma layers_fit_witness :
  out_width (net_module main_generator) Z_DIM = Some 784
  /\ out_width
       (net_module
          (DiscriminatorNet
             (Sequential
                [Sequential [Linear 784 512;
                             LeakyReLU {| mantissa := 2; exponent10 := -1 |} true];
                 Sequential [Linear 512 256;
                             LeakyReLU {| mantissa := 2; exponent10 := -1 |} true];
                 Sequential [Linear 256 128;
                             LeakyReLU {| mantissa := 2; exponent10 := -1 |} true];
                 Linear 128 1])))
       784 = Some 1.
Proof.
  refine (layers_fit (quiet_env [] 0) Z_DIM 784 128 [] []
            (fst (run (quiet_env [] 0) (Generator Z_DIM 784 128) []))
            (fst (run (quiet_env [] 0) (Discriminator 784 128) []))
            _ _ _ _).
  - apply run_returns. vm_compute. reflexivity.
  - apply run_returns. vm_compute. reflexivity.
Defined.
